(** * CD_Model: request lifecycle and query engine of a remote collection

    A shallow embedding of [model.js] (CD_Model 1.4.0): the parameter
    mutators, the request controller built on [$.ajax], the pagination
    helpers with their URL-only variants, and the local queries [get],
    [get_where] and [like].  JavaScript values are embedded as a small datatype, the
    collection object as its list of own properties, and the methods as
    functions in a state-and-exception monad over a [world] that holds the
    settings, the instance and every request handed to the transport. *)

From Stdlib Require Import ZArith List String Ascii Bool Lia DecimalString DecimalPos.
Import ListNotations.
Local Open Scope list_scope.
Local Open Scope string_scope.

(** ** JavaScript values *)

(** Numbers.  The arithmetic of the library is on offsets, limits and
    identifiers, so a number is an integer or [NaN]; integers are taken in
    the range where the arithmetic of doubles is exact, and a statement that
    rests on the result of a sum, of a difference or of a decimal spelling
    names that range ([safe_integer]) among its hypotheses. *)
Inductive number : Type :=
| NaN
| Num (z : Z).

(** Primitive values: what a query parameter, a record attribute or a method
    argument can hold. *)
Inductive value : Type :=
| JUndef
| JNull
| JBool (b : bool)
| JNum (n : number)
| JStr (s : string).

(** A plain object with primitive fields, in property-creation order.
    Property names are ordinary (non-index) strings. *)
Definition object : Type := list (string * value).

(** An argument that may be a primitive or a plain object. *)
Inductive jsarg : Type :=
| Prim (v : value)
| Obj (o : object).

(** The host's reading of a string as a number ([ToNumber] on a String) is
    left abstract: the development holds for every such reading. *)
Class Host : Type := { StringToNumber : string -> number }.

Module Js.

(** [x === y] on numbers: [NaN] equals nothing. *)
Definition num_eqb (a b : number) : bool :=
  match a, b with
  | Num x, Num y => Z.eqb x y
  | _, _ => false
  end.

Definition num_add (a b : number) : number :=
  match a, b with
  | Num x, Num y => Num (x + y)
  | _, _ => NaN
  end.

Definition num_sub (a b : number) : number :=
  match a, b with
  | Num x, Num y => Num (x - y)
  | _, _ => NaN
  end.

Definition num_mul (a b : number) : number :=
  match a, b with
  | Num x, Num y => Num (x * y)
  | _, _ => NaN
  end.

(** [typeof v]; [null] is an "object". *)
Definition typeof (v : value) : string :=
  match v with
  | JUndef => "undefined"
  | JNull => "object"
  | JBool _ => "boolean"
  | JNum _ => "number"
  | JStr _ => "string"
  end.

Definition typeof_arg (a : jsarg) : string :=
  match a with
  | Prim v => typeof v
  | Obj _ => "object"
  end.

(** Truthiness, as tested by [if (v)], [!v] and [a || b]. *)
Definition truthy (v : value) : bool :=
  match v with
  | JUndef | JNull => false
  | JBool b => b
  | JNum NaN => false
  | JNum (Num z) => negb (Z.eqb z 0)
  | JStr s => negb (String.eqb s "")
  end.

Definition truthy_arg (a : jsarg) : bool :=
  match a with
  | Prim v => truthy v
  | Obj _ => true
  end.

(** [a || b]. *)
Definition or_else (a b : value) : value := if truthy a then a else b.

(** [String(n)] for [NaN] and for an integer of the safe range, which is
    spelled with all its decimal digits (from [1e21] on JavaScript writes
    an exponent). *)
Definition NumberToString (n : number) : string :=
  match n with
  | NaN => "NaN"
  | Num z => NilZero.string_of_int (Z.to_int z)
  end.

Definition ToString (v : value) : string :=
  match v with
  | JUndef => "undefined"
  | JNull => "null"
  | JBool true => "true"
  | JBool false => "false"
  | JNum n => NumberToString n
  | JStr s => s
  end.

Definition ToNumber `{Host} (v : value) : number :=
  match v with
  | JUndef => NaN
  | JNull => Num 0
  | JBool true => Num 1
  | JBool false => Num 0
  | JNum n => n
  | JStr s => StringToNumber s
  end.

(** Unary plus, [+v]. *)
Definition plus `{Host} (v : value) : value := JNum (ToNumber v).

(** Binary [a + b]: concatenation as soon as one side is a string. *)
Definition add `{Host} (a b : value) : value :=
  match a, b with
  | JStr _, _ | _, JStr _ => JStr (ToString a ++ ToString b)
  | _, _ => JNum (num_add (ToNumber a) (ToNumber b))
  end.

(** [a - b] and [a * b] are always numeric. *)
Definition sub `{Host} (a b : value) : value :=
  JNum (num_sub (ToNumber a) (ToNumber b)).

Definition mul `{Host} (a b : value) : value :=
  JNum (num_mul (ToNumber a) (ToNumber b)).

(** [a === b]. *)
Definition strict_eq (a b : value) : bool :=
  match a, b with
  | JUndef, JUndef => true
  | JNull, JNull => true
  | JBool x, JBool y => Bool.eqb x y
  | JNum x, JNum y => num_eqb x y
  | JStr x, JStr y => String.eqb x y
  | _, _ => false
  end.

(** [a == b], the abstract equality comparison on primitives. *)
Definition loose_eq `{Host} (a b : value) : bool :=
  match a, b with
  | (JUndef | JNull), (JUndef | JNull) => true
  | (JUndef | JNull), _ | _, (JUndef | JNull) => false
  | JStr x, JStr y => String.eqb x y
  | _, _ => num_eqb (ToNumber a) (ToNumber b)
  end.

(** *** parseInt *)

(** Blanks are those of the ASCII range: tab, line feed, vertical tab, form
    feed, carriage return and space. *)
Definition is_space (c : ascii) : bool :=
  let n := nat_of_ascii c in
  ((9 <=? n) && (n <=? 13) || (n =? 32))%nat.

Fixpoint skip_spaces (s : string) : string :=
  match s with
  | String c t => if is_space c then skip_spaces t else s
  | EmptyString => s
  end.

Definition digit_of (radix : Z) (c : ascii) : option Z :=
  let n := Z.of_nat (nat_of_ascii c) in
  let d :=
    (if (48 <=? n) && (n <=? 57) then n - 48
     else if (97 <=? n) && (n <=? 122) then n - 87
     else if (65 <=? n) && (n <=? 90) then n - 55
     else radix)%Z in
  if (d <? radix)%Z then Some d else None.

(** The longest prefix of digits, read in [radix]; [None] when it is
    empty. *)
Fixpoint read_digits (radix : Z) (s : string) (acc : option Z) : option Z :=
  match s with
  | EmptyString => acc
  | String c t =>
      match digit_of radix c with
      | Some d =>
          read_digits radix t
            (Some (radix * match acc with Some a => a | None => 0 end + d))
      | None => acc
      end
  end%Z.

Definition parseInt_string (s : string) : number :=
  let s := skip_spaces s in
  let '(sign, s) :=
    match s with
    | String "-" t => ((-1)%Z, t)
    | String "+" t => (1%Z, t)
    | _ => (1%Z, s)
    end in
  let '(radix, s) :=
    match s with
    | String "0" (String "x" t) | String "0" (String "X" t) => (16%Z, t)
    | _ => (10%Z, s)
    end in
  match read_digits radix s None with
  | Some n => Num (sign * n)
  | None => NaN
  end.

(** [parseInt(v)]: the argument is first turned into a string. *)
Definition parseInt (v : value) : number := parseInt_string (ToString v).

(** *** encodeURIComponent and the trailing-slash regex *)

Definition unreserved (c : ascii) : bool :=
  let n := nat_of_ascii c in
  ((48 <=? n) && (n <=? 57) || (65 <=? n) && (n <=? 90)
   || (97 <=? n) && (n <=? 122)
   || existsb (Nat.eqb n) [45; 95; 46; 33; 126; 42; 39; 40; 41])%nat.

Definition hex_digit (n : nat) : ascii :=
  ascii_of_nat (if (n <? 10)%nat then 48 + n else 55 + n).

(** Strings are sequences of UTF-8 bytes, so escaping is per byte. *)
Fixpoint encodeURIComponent (s : string) : string :=
  match s with
  | EmptyString => EmptyString
  | String c t =>
      if unreserved c then String c (encodeURIComponent t)
      else
        let n := nat_of_ascii c in
        String "%" (String (hex_digit (n / 16)) (String (hex_digit (n mod 16))
          (encodeURIComponent t)))
  end.

(** [s.replace(/\/+$/, '')]. *)
Fixpoint strip_trailing_slashes (s : string) : string :=
  match s with
  | EmptyString => EmptyString
  | String c t =>
      match strip_trailing_slashes t with
      | EmptyString => if Ascii.eqb c "/" then EmptyString else String c EmptyString
      | t' => String c t'
      end
  end.

End Js.

(** ** Plain objects *)

Module Object.

Section Properties.
Context {V : Type}.

(** The own property [k], if there is one. *)
Fixpoint get (o : list (string * V)) (k : string) : option V :=
  match o with
  | [] => None
  | (k', v) :: t => if String.eqb k k' then Some v else get t k
  end.

(** [k in o]. *)
Definition has (o : list (string * V)) (k : string) : bool :=
  match get o k with Some _ => true | None => false end.

(** [o[k] = v]: an existing property keeps its place, a new one goes
    last. *)
Fixpoint set (o : list (string * V)) (k : string) (v : V) : list (string * V) :=
  match o with
  | [] => [(k, v)]
  | (k', v') :: t =>
      if String.eqb k k' then (k', v) :: t else (k', v') :: set t k v
  end.

(** [delete o[k]]. *)
Fixpoint delete (o : list (string * V)) (k : string) : list (string * V) :=
  match o with
  | [] => []
  | (k', v') :: t =>
      if String.eqb k k' then delete t k else (k', v') :: delete t k
  end.

(** The names a [for (k in o)] loop visits. *)
Definition keys (o : list (string * V)) : list string := map fst o.
End Properties.

(** [o[k]]. *)
Definition read (o : object) (k : string) : value :=
  match get o k with Some v => v | None => JUndef end.

(** [$.extend(target, src)]: shallow, and a property of [src] that is
    [undefined] is not copied. *)
Definition is_undefined (v : value) : bool :=
  match v with JUndef => true | _ => false end.

Definition extend_step (src : object) (acc : object) (k : string) : object :=
  if is_undefined (read src k) then acc else set acc k (read src k).

Definition extend (target src : object) : object :=
  fold_left (extend_step src) (keys src) target.

(** [$.extend({}, o)]. *)
Definition copy (o : object) : object := extend [] o.

End Object.

(** ** Records, the collection instance, requests *)

(** A record is a [CD_Result]: the attributes copied from its payload. *)
Definition record : Type := object.

(** What a response holds under a name: a primitive, or an object whose
    enumerable properties are record payloads. *)
Inductive rvalue : Type :=
| RPrim (v : value)
| RColl (items : list (string * jsarg)).

(** A decoded JSON response. *)
Definition response : Type := list (string * rvalue).

(** The objects [_init] can hold: the [$.Deferred()] of the constructor,
    which nothing ever settles, or the jqXHR of a request. *)
Inductive handle : Type :=
| Deferred
| Xhr (id : nat).

(** The value of a named own property: the library stores a boolean in
    [_init_ajax], a Deferred or a jqXHR in [_init], a jqXHR in
    [_last_request]. *)
Inductive named : Type :=
| NBool (b : bool)
| NHandle (h : handle).

(** The value of an own property of a collection, as a loop over the
    properties meets it. *)
Inductive cval : Type :=
| CRec (r : record)
| CNamed (x : named).

(** The collection object, as its own enumerable properties: the records
    pushed so far under the indices [0], [1], ..., and the named properties
    in creation order ([_init_ajax], [_init], [_last_request]).  [push]
    belongs to array.js and appends at the next index. *)
Record collection : Type := {
  records : list record;
  fields : list (string * named)
}.

Record settings : Type := {
  s_endpoint : string;
  s_params : object;
  s_attribute : string;
  s_init : bool
}.

(** [Model_Collection_defaults]. *)
Definition Model_Collection_defaults : settings :=
  {| s_endpoint := ""; s_params := []; s_attribute := "data"; s_init := false |}.

(** The state of a jqXHR.  A request that was aborted or timed out has
    failed, with that reason. *)
Inductive rstate : Type :=
| Pending
| Succeeded (resp : response)
| Failed (reason : string).

(** A request handed to [$.ajax], with the handler the collection chained on
    it: [r_load] says that [.done] was given the function that calls
    [CD_Model.call(mc, response[mc.settings.attribute])]. *)
Record request : Type := {
  r_method : string;
  r_url : string;
  r_timeout : Z;
  r_data : option jsarg;
  r_state : rstate;
  r_load : bool
}.

(** The [_last_request] of the prototype: [false] as shipped, and [true] or
    [null] when the application opts in to the discarding of simultaneous
    requests. *)
Inductive retention : Type :=
| R_false
| R_true
| R_null.

(** What [this._last_request] evaluates to: one of those three values, a
    jqXHR, or something else that has no [abort] method. *)
Inductive retained : Type :=
| LProto (r : retention)
| LXhr (id : nat)
| LOther.

(** The world of one instance.  The settings and [_last_request] live on
    the prototype; [self] is the instance; [net] lists every request given
    to the transport, a jqXHR being its position in the list. *)
Record world : Type := {
  settings_of : settings;
  proto_last_request : retention;
  self : collection;
  net : list request
}.

(** What a method hands back to its caller. *)
Inductive promise : Type :=
| Rejected (reason : string)
| OfRequest (id : nat)
| OfDeferred.

(** ** The monad of methods: state, and exceptions that keep the state *)

Inductive result (A : Type) : Type :=
| Returns (a : A) (w : world)
| Throws (e : string) (w : world).
Arguments Returns {A} a w.
Arguments Throws {A} e w.

Definition M (A : Type) : Type := world -> result A.

Definition ret {A} (a : A) : M A := fun w => Returns a w.

Definition bind {A B} (m : M A) (k : A -> M B) : M B :=
  fun w =>
    match m w with
    | Returns a w' => k a w'
    | Throws e w' => Throws e w'
    end.

Definition throw {A} (e : string) : M A := fun w => Throws e w.

Definition gets {A} (f : world -> A) : M A := fun w => Returns (f w) w.

Definition modify (f : world -> world) : M unit := fun w => Returns tt (f w).

Definition when (b : bool) (m : M unit) : M unit := if b then m else ret tt.

Declare Scope js_scope.
Delimit Scope js_scope with js.
Notation "x <- m ;; k" := (bind m (fun x => k))
  (at level 61, m at next level, right associativity) : js_scope.
Notation "m ;; k" := (bind m (fun _ => k))
  (at level 61, right associativity) : js_scope.
Local Open Scope js_scope.

(** The world a call leaves behind, whether it returned or threw. *)
Definition world_after {A} (r : result A) : world :=
  match r with
  | Returns _ w => w
  | Throws _ w => w
  end.

(** *** State accessors *)

Definition with_settings (f : settings -> settings) (w : world) : world :=
  {| settings_of := f (settings_of w);
     proto_last_request := proto_last_request w;
     self := self w;
     net := net w |}.

Definition with_self (f : collection -> collection) (w : world) : world :=
  {| settings_of := settings_of w;
     proto_last_request := proto_last_request w;
     self := f (self w);
     net := net w |}.

Definition with_net (f : list request -> list request) (w : world) : world :=
  {| settings_of := settings_of w;
     proto_last_request := proto_last_request w;
     self := self w;
     net := f (net w) |}.

Definition with_params (f : object -> object) : settings -> settings :=
  fun s =>
    {| s_endpoint := s_endpoint s;
       s_params := f (s_params s);
       s_attribute := s_attribute s;
       s_init := s_init s |}.

Definition with_fields (f : list (string * named) -> list (string * named))
  : collection -> collection :=
  fun c => {| records := records c; fields := f (fields c) |}.

Definition with_state (st : rstate) (r : request) : request :=
  {| r_method := r_method r; r_url := r_url r; r_timeout := r_timeout r;
     r_data := r_data r; r_state := st; r_load := r_load r |}.

Definition with_load (r : request) : request :=
  {| r_method := r_method r; r_url := r_url r; r_timeout := r_timeout r;
     r_data := r_data r; r_state := r_state r; r_load := true |}.

(** [mc.settings.params]. *)
Definition params_of (w : world) : object := s_params (settings_of w).

(** [mc.settings.params[k] = v] and [delete mc.settings.params[k]]. *)
Definition set_param (k : string) (v : value) : M unit :=
  modify (with_settings (with_params (fun ps => Object.set ps k v))).

Definition delete_param (k : string) : M unit :=
  modify (with_settings (with_params (fun ps => Object.delete ps k))).

(** [this[k] = v] for a named property. *)
Definition set_field (k : string) (v : named) : M unit :=
  modify (with_self (with_fields (fun fs => Object.set fs k v))).

(** Applies [f] to the request [id], if there is one. *)
Fixpoint update_request (id : nat) (f : request -> request) (l : list request)
  : list request :=
  match l, id with
  | [], _ => []
  | r :: t, O => f r :: t
  | r :: t, S n => r :: update_request n f t
  end.

Definition is_pending (r : request) : bool :=
  match r_state r with Pending => true | _ => false end.

(** The state of the jqXHR [id]. *)
Definition state_of (w : world) (id : nat) : option rstate :=
  option_map r_state (nth_error (net w) id).

(** ** CD_Result and the CD_Model constructor *)

Module CD_Result.

(** [CD_Result(properties)]: the properties of an object payload are
    copied; any other payload leaves the record without attributes.  This
    is the record of a payload without a property named [length]: assigning
    that one throws in strict mode once the prototype holds its accessor,
    and the statements on loaded records exclude it ([plain_payloads]). *)
Definition make (properties : jsarg) : record :=
  match properties with
  | Obj o => fold_left (fun r k => Object.set r k (Object.read o k)) (Object.keys o) []
  | Prim _ => []
  end.

(** [r[k]]: an attribute of the record or, for [length], the getter of the
    prototype, [Object.keys(this).length].  The methods of the prototype
    are functions and stay outside the values of the model. *)
Definition attr (r : record) (k : string) : value :=
  match Object.get r k with
  | Some v => v
  | None =>
      if String.eqb k "length" then JNum (Num (Z.of_nat (List.length r))) else JUndef
  end.

End CD_Result.

(** [x[k]] for the value [x] of an own property of the collection.  The
    attributes of a record are those of its payload.  What the other own
    properties show (the fields of a jqXHR, the methods of a Deferred or of
    a boolean) is not modelled and reads as [undefined] here; the
    statements on [get_where] and [like] leave open which of these
    properties a filter retains. *)
Definition cval_attr (x : cval) (k : string) : value :=
  match x with
  | CRec r => CD_Result.attr r k
  | CNamed _ => JUndef
  end.

Definition named_truthy (x : named) : bool :=
  match x with
  | NBool b => b
  | NHandle _ => true
  end.

(** The values a [for (prop in this)] loop visits under [hasOwnProperty]:
    index properties first, ascending, then the named ones. *)
Definition own_values (c : collection) : list cval :=
  (map CRec (records c) ++ map (fun kv => CNamed (snd kv)) (fields c))%list.

(** [this.push(x)], as far as the records go.  The method is inherited
    from the array library, which also keeps own properties of its own on
    the instance (a [length], the listeners of its emitter); they are not
    among the [fields] of the model, and the statements on the own
    properties of an instance name the properties they are about. *)
Definition push (r : record) (c : collection) : collection :=
  {| records := (records c ++ [r])%list; fields := fields c |}.

(** The body of the [CD_Model] constructor, which is also the [done]
    handler of every fetch: each payload of [properties] becomes a record
    pushed on [this]. *)
Definition CD_Model_call (properties : rvalue) (c : collection) : collection :=
  match properties with
  | RColl items => fold_left (fun c kv => push (CD_Result.make (snd kv)) c) items c
  | RPrim _ => c
  end.

(** [response[name]]. *)
Definition response_read (resp : response) (name : string) : rvalue :=
  match Object.get resp name with
  | Some x => x
  | None => RPrim JUndef
  end.

(** ** The transport *)

Module Transport.

(** [jqXHR.abort()]: a pending request fails with reason [abort]; a
    settled one is left alone. *)
Definition abort (id : nat) (l : list request) : list request :=
  update_request id
    (fun r => if is_pending r then with_state (Failed "abort") r else r) l.

(** [$.ajax(request)] with the [beforeSend] of [_make_request]: the
    callback runs first, then the request is sent and its jqXHR
    returned.  [lq] is the captured [_last_request], [None] when no
    [beforeSend] was installed. *)
Definition ajax (r : request) (lq : option retained) : M nat :=
  match lq with
  | None | Some (LProto R_null) | Some (LProto R_true) =>
      id <- gets (fun w => List.length (net w)) ;;
      modify (with_net (fun l => (l ++ [r])%list)) ;;
      ret id
  | Some (LXhr prev) =>
      modify (with_net (abort prev)) ;;
      id <- gets (fun w => List.length (net w)) ;;
      modify (with_net (fun l => (l ++ [r])%list)) ;;
      ret id
  | Some _ => throw "TypeError: lq.abort is not a function"
  end.

(** [jqXHR.done(handler)] with the loading handler. *)
Definition done (id : nat) : M unit :=
  modify (with_net (update_request id with_load)).

(** The network answers request [id] with a decoded body: a pending
    request succeeds and its [done] handler runs; the answer to a request
    that is no longer pending is dropped. *)
Definition settle_ok (id : nat) (resp : response) (w : world) : world :=
  match nth_error (net w) id with
  | Some r =>
      if is_pending r then
        let w' := with_net (update_request id (with_state (Succeeded resp))) w in
        if r_load r then
          with_self
            (CD_Model_call (response_read resp (s_attribute (settings_of w')))) w'
        else w'
      else w
  | None => w
  end.

(** The request [id] fails (time-out, transport or HTTP error): no
    handler of the collection is attached to that outcome. *)
Definition settle_fail (id : nat) (reason : string) (w : world) : world :=
  with_net
    (update_request id
       (fun r => if is_pending r then with_state (Failed reason) r else r)) w.

End Transport.

(** ** The methods of CD_Model *)

Module CD_Model.

Section Methods.
Context `{Host}.

(** [this._last_request]: the own property, else the prototype's. *)
Definition this_last_request (w : world) : retained :=
  match Object.get (fields (self w)) "_last_request" with
  | Some (NHandle (Xhr id)) => LXhr id
  | Some (NBool b) => LProto (if b then R_true else R_false)
  | Some (NHandle Deferred) => LOther
  | None => LProto (proto_last_request w)
  end.

Definition not_set_up : string :=
  "Error: The API Toolset has not been setup correctly.".

(** The private [_make_request(method, endpoint, data)] of [api()]. *)
Definition _make_request (method : string) (endpoint : value) (data : jsarg)
  : M nat :=
  base <- gets (fun w => s_endpoint (settings_of w)) ;;
  if negb (Js.truthy (JStr base)) then throw not_set_up
  else
    let request :=
      {| r_method := method;
         r_url := Js.strip_trailing_slashes base ++ "/" ++ Js.ToString endpoint;
         r_timeout := 5000;
         r_data :=
           if negb (String.eqb method "get") && Js.truthy_arg data
           then Some data else None;
         r_state := Pending;
         r_load := false |} in
    lq <- gets this_last_request ;;
    match lq with
    | LProto R_false => Transport.ajax request None
    | _ =>
        id <- Transport.ajax request (Some lq) ;;
        set_field "_last_request" (NHandle (Xhr id)) ;;
        ret id
    end.

(** The query string built from a plain object, in [api().get] and in
    [url]: properties that are [null] are skipped. *)
Definition query_of (ps : object) : string :=
  fold_left
    (fun query_string resource =>
       if negb (Js.strict_eq (Object.read ps resource) JNull) then
         if String.eqb query_string "" then
           "?" ++ Js.encodeURIComponent resource ++ "="
               ++ Js.encodeURIComponent (Js.ToString (Object.read ps resource))
         else
           query_string ++ "&" ++ Js.encodeURIComponent resource ++ "="
               ++ Js.encodeURIComponent (Js.ToString (Object.read ps resource))
       else query_string)
    (Object.keys ps) "".

(** The path-and-query part common to [api().get] and [url]. *)
Definition query_string_of (params : jsarg) (endpoint : value) : value :=
  let query_string :=
    match params with
    | Obj o => JStr (query_of o)
    | Prim v => if Js.truthy v then v else JStr ""
    end in
  if Js.truthy endpoint
  then JStr (Js.ToString endpoint ++ "/" ++ Js.ToString query_string)
  else query_string.

(** The four verbs of [api()]. *)
Definition api_get (params : jsarg) (endpoint : value) : M nat :=
  _make_request "get" (query_string_of params endpoint) (Prim JUndef).

Definition api_put (data : jsarg) (endpoint : value) : M nat :=
  _make_request "put" endpoint data.

Definition api_post (data : jsarg) (endpoint : value) : M nat :=
  _make_request "post" endpoint data.

Definition api_delete (data : jsarg) (params : value) : M nat :=
  _make_request "delete" params (Prim JUndef).

(** The tail shared by every refreshing method:
    [this.api().get(mc.settings.params).done(function(response){...})]. *)
Definition fetch : M nat :=
  ps <- gets params_of ;;
  id <- api_get (Obj ps) JUndef ;;
  Transport.done id ;;
  ret id.

(** The jqXHR is what the caller receives. *)
Definition fetched : M promise :=
  id <- fetch ;;
  ret (OfRequest id).

Definition defined (v : value) : bool :=
  negb (String.eqb (Js.typeof v) "undefined").

Definition param (name v : value) : M unit :=
  if defined name && Js.truthy v then
    set_param (Js.ToString name) v
  else if defined name then
    delete_param (Js.ToString name)
  else ret tt.

Definition filter (field v : value) : M promise :=
  (if defined field && Js.truthy v then
     set_param (Js.ToString field) v ;;
     set_param "offset" (JNum (Num 0))
   else if defined field then
     delete_param (Js.ToString field) ;;
     set_param "offset" (JNum (Num 0))
   else ret tt) ;;
  fetched.

Definition sort (v : value) : M promise :=
  (if defined v then
     set_param "sort" v ;;
     set_param "offset" (JNum (Num 0))
   else delete_param "sort") ;;
  fetched.

Definition search (v : value) : M promise :=
  (if defined v then
     set_param "q" v ;;
     set_param "offset" (JNum (Num 0))
   else delete_param "q") ;;
  fetched.

Definition no_limit : string := "No limit defined in parameters".

(** The prologue shared by [next], [page] and [prev], after the test on
    [limit]. *)
Definition take_count (count : value) : M unit :=
  when (defined count) (set_param "limit" (Js.plus count)) ;;
  ps <- gets params_of ;;
  when (negb (Object.has ps "offset")) (set_param "offset" (JNum (Num 0))).

Definition next (count : value) : M promise :=
  ps <- gets params_of ;;
  if negb (Object.has ps "limit") then ret (Rejected no_limit)
  else
    take_count count ;;
    ps <- gets params_of ;;
    set_param "offset" (Js.add (Object.read ps "offset") (Object.read ps "limit")) ;;
    fetched.

Definition page (n count : value) : M promise :=
  ps <- gets params_of ;;
  if negb (Object.has ps "limit") then ret (Rejected no_limit)
  else
    take_count count ;;
    ps <- gets params_of ;;
    set_param "offset"
      (Js.mul (Object.read ps "limit") (Js.sub n (JNum (Num 1)))) ;;
    fetched.

Definition prev (count : value) : M promise :=
  ps <- gets params_of ;;
  if negb (Object.has ps "limit") then ret (Rejected no_limit)
  else
    take_count count ;;
    ps <- gets params_of ;;
    set_param "offset" (Js.sub (Object.read ps "offset") (Object.read ps "limit")) ;;
    fetched.

(** [url(params, segments)]. *)
Definition url (params : jsarg) (segments : value) (w : world) : string :=
  let params :=
    match params with
    | Prim JUndef => Obj (Object.copy (params_of w))
    | _ => params
    end in
  Js.strip_trailing_slashes (s_endpoint (settings_of w)) ++ "/"
    ++ Js.ToString (query_string_of params segments).

(** The parameters [url_next] gives to [url], or [None] when no limit
    can be found and it falls back on [mc.url()]. *)
Definition url_next_params (count : value) (w : world) : option object :=
  let params := Object.copy (params_of w) in
  let limit := Js.or_else count (Object.read (params_of w) "limit") in
  if negb (Js.truthy limit) then None
  else Some (Object.set params "offset"
               (Js.add (Js.plus (Object.read params "offset")) limit)).

Definition url_prev_params (count : value) (w : world) : option object :=
  let params := Object.copy (params_of w) in
  let limit := Js.or_else count (Object.read (params_of w) "limit") in
  if negb (Js.truthy limit) then None
  else Some (Object.set params "offset"
               (Js.sub (Js.plus (Object.read params "offset")) limit)).

Definition url_page_params (n count : value) (w : world) : option object :=
  let params := Object.copy (params_of w) in
  let limit := Js.or_else count (Object.read (params_of w) "limit") in
  if negb (Js.truthy limit) then None
  else Some (Object.set params "offset"
               (Js.mul (Object.read (params_of w) "limit")
                       (Js.sub n (JNum (Num 1))))).

Definition url_with (params : option object) (w : world) : string :=
  match params with
  | None => url (Prim JUndef) JUndef w
  | Some ps => url (Obj ps) JUndef w
  end.

Definition url_next (count : value) (w : world) : string :=
  url_with (url_next_params count w) w.

Definition url_prev (count : value) (w : world) : string :=
  url_with (url_prev_params count w) w.

Definition url_page (n count : value) (w : world) : string :=
  url_with (url_page_params n count w) w.

(** [empty()]: every own enumerable property is deleted, whatever it
    holds. *)
Definition empty : M unit :=
  modify (with_self (fun _ => {| records := []; fields := [] |})).

(** [replace(params)], for [params] omitted or a plain object. *)
Definition replace (params : option object) : M promise :=
  match params with
  | Some ps => modify (with_settings (with_params (fun _ => ps)))
  | None => ret tt
  end ;;
  empty ;;
  fetched.

(** [this[k]] for a named property that the prototype does not define. *)
Definition this_field (k : string) (w : world) : option named :=
  Object.get (fields (self w)) k.

(** [Model_Collection.prototype.init]. *)
Definition init (params : jsarg) : M promise :=
  init_ajax <- gets (this_field "_init_ajax") ;;
  when (negb match init_ajax with Some x => named_truthy x | None => false end)
    (match params with
     | Obj o =>
         modify (with_settings (with_params
           (fun ps => Object.extend (Object.extend [] ps) o)))
     | Prim _ => ret tt
     end ;;
     id <- fetch ;;
     set_field "_init" (NHandle (Xhr id)) ;;
     set_field "_init_ajax" (NBool true)) ;;
  _init <- gets (this_field "_init") ;;
  match _init with
  | Some (NHandle Deferred) => ret OfDeferred
  | Some (NHandle (Xhr id)) => ret (OfRequest id)
  | _ => throw "TypeError: mc._init.promise is not a function"
  end.

Definition rvalue_truthy (x : rvalue) : bool :=
  match x with
  | RPrim v => Js.truthy v
  | RColl _ => true
  end.

(** The [Model_Collection(properties)] constructor, on a new object. *)
Definition Model_Collection (properties : rvalue) : M unit :=
  modify (with_self (fun _ => {| records := []; fields := [] |})) ;;
  set_field "_init_ajax" (NBool false) ;;
  set_field "_init" (NHandle Deferred) ;;
  s <- gets settings_of ;;
  if negb (rvalue_truthy properties) && s_init s && Js.truthy (JStr (s_endpoint s))
  then init (Prim JUndef) ;; ret tt
  else
    match properties with
    | RPrim JUndef => ret tt
    | _ => modify (with_self (CD_Model_call properties))
    end.

End Methods.

End CD_Model.

(** ** Local queries *)

Module Query.

(** What [get_where] returns: the array [matched], or [matched[0]] when
    [limit === 1], where [None] stands for [undefined]. *)
Inductive found : Type :=
| Items (matched : list cval)
| Item (x : option cval).

(** The test of [get] on one own property:
    [typeof this[prop].id !== 'undefined' &&
     parseInt(this[prop].id) === parseInt(id)]. *)
Definition same_id (id : value) (x : cval) : bool :=
  CD_Model.defined (cval_attr x "id")
  && Js.num_eqb (Js.parseInt (cval_attr x "id")) (Js.parseInt id).

(** The loop of [get], which returns at the first hit. *)
Fixpoint get_loop (id : value) (props : list cval) : option cval :=
  match props with
  | [] => None
  | x :: rest => if same_id id x then Some x else get_loop id rest
  end.

(** [get(id)]; [None] stands for [null]. *)
Definition get (id : value) (c : collection) : option cval :=
  get_loop id (own_values c).

Section Where.
Context `{Host}.

(** The test of one clause on one own property:
    [typeof self[prop][clause] !== 'undefined' &&
     self[prop][clause] == where[clause]]. *)
Definition clause_holds (where_ : object) (x : cval) (clause : string) : bool :=
  CD_Model.defined (cval_attr x clause)
  && Js.loose_eq (cval_attr x clause) (Object.read where_ clause).

(** The first inner loop: every clause writes its verdict in
    [truth_table]. *)
Definition fill_truth_table (where_ : object) (x : cval)
  (truth_table : list (string * bool)) : list (string * bool) :=
  fold_left
    (fun tt clause => Object.set tt clause (clause_holds where_ x clause))
    (Object.keys where_) truth_table.

(** The second inner loop: [include] stays true unless some entry of
    [truth_table] is false. *)
Definition include (truth_table : list (string * bool)) : bool :=
  fold_left
    (fun inc clause =>
       match Object.get truth_table clause with
       | Some false => false
       | _ => inc
       end)
    (Object.keys truth_table) true.

(** The loop labelled [obj_props].  [truth_table] and [matched] are
    declared before it and live across the iterations; the loop is left
    as soon as [matched.length === limit]. *)
Fixpoint obj_props (where_ : object) (limit : value) (props : list cval)
  (truth_table : list (string * bool)) (matched : list cval) : list cval :=
  match props with
  | [] => matched
  | x :: rest =>
      let truth_table := fill_truth_table where_ x truth_table in
      let matched :=
        if include truth_table then (matched ++ [x])%list else matched in
      if Js.strict_eq (JNum (Num (Z.of_nat (List.length matched)))) limit
      then matched
      else obj_props where_ limit rest truth_table matched
  end.

(** [get_where(where, limit)]. *)
Definition get_where (where_ : jsarg) (limit : value) (c : collection) : found :=
  if negb (String.eqb (Js.typeof_arg where_) "object") then Items []
  else
    let clauses := match where_ with Obj o => o | Prim _ => [] end in
    let matched := obj_props clauses limit (own_values c) [] [] in
    if Js.strict_eq limit (JNum (Num 1)) then Item (hd_error matched)
    else Items matched.

End Where.

End Query.

(** ** Histories of an instance *)

(** What can happen to a collection: the application calls a method, or the
    network settles a request. *)
Inductive event : Type :=
| Call_init (params : jsarg)
| Call_param (name v : value)
| Call_filter (field v : value)
| Call_sort (v : value)
| Call_search (v : value)
| Call_next (count : value)
| Call_prev (count : value)
| Call_page (n count : value)
| Call_replace (params : option object)
| Call_empty
| Net_ok (id : nat) (resp : response)
| Net_fail (id : nat) (reason : string).

Section Histories.
Context `{Host}.

Definition step (e : event) (w : world) : world :=
  match e with
  | Call_init params => world_after (CD_Model.init params w)
  | Call_param name v => world_after (CD_Model.param name v w)
  | Call_filter field v => world_after (CD_Model.filter field v w)
  | Call_sort v => world_after (CD_Model.sort v w)
  | Call_search v => world_after (CD_Model.search v w)
  | Call_next count => world_after (CD_Model.next count w)
  | Call_prev count => world_after (CD_Model.prev count w)
  | Call_page n count => world_after (CD_Model.page n count w)
  | Call_replace params => world_after (CD_Model.replace params w)
  | Call_empty => world_after (CD_Model.empty w)
  | Net_ok id resp => Transport.settle_ok id resp w
  | Net_fail id reason => Transport.settle_fail id reason w
  end.

Definition run (history : list event) (w : world) : world :=
  fold_left (fun w e => step e w) history w.

End Histories.

(** ** A host for worked examples *)

(** Reads the canonical decimal spelling of an integer, after leading
    blanks; the blank string is 0 and any other spelling is taken as [NaN].
    It agrees with [ToNumber] on the strings of the examples. *)
Definition decimal_StringToNumber (s : string) : number :=
  match Js.skip_spaces s with
  | EmptyString => Num 0
  | s' =>
      match Js.parseInt_string s' with
      | Num z =>
          if String.eqb (Js.NumberToString (Num z)) s' then Num z else NaN
      | NaN => NaN
      end
  end.

#[export] Instance decimal_host : Host :=
  {| StringToNumber := decimal_StringToNumber |}.

(** ** The effect of one fetch, in closed form *)

Section Controller.
Context `{Host}.

(** [settings.endpoint] is set: it is not the empty string of the
    defaults. *)
Definition endpoint_set (w : world) : bool :=
  Js.truthy (JStr (s_endpoint (settings_of w))).

(** The request a fetch hands to the transport, with its [done] handler. *)
Definition get_request (w : world) : request :=
  {| r_method := "get";
     r_url := CD_Model.url (Obj (params_of w)) JUndef w;
     r_timeout := 5000;
     r_data := None;
     r_state := Pending;
     r_load := true |}.

(** The world after a fetch that went out. *)
Definition sent (w : world) : world :=
  {| settings_of := settings_of w;
     proto_last_request := proto_last_request w;
     self :=
       match CD_Model.this_last_request w with
       | LProto R_false => self w
       | _ =>
           with_fields
             (fun fs => Object.set fs "_last_request"
                          (NHandle (Xhr (List.length (net w)))))
             (self w)
       end;
     net :=
       (match CD_Model.this_last_request w with
        | LXhr prev => Transport.abort prev (net w)
        | _ => net w
        end ++ [get_request w])%list |}.

(** The retained request has an [abort] method, or is one of the three
    values of the prototype. *)
Definition abortable (w : world) : bool :=
  match CD_Model.this_last_request w with
  | LOther => false
  | _ => true
  end.

End Controller.

(** ** The verbs of [api()] *)

Inductive verb : Type :=
| Get (params : jsarg) (endpoint : value)
| Put (data : jsarg) (endpoint : value)
| Post (data : jsarg) (endpoint : value)
| Delete (data : jsarg) (params : value).

(** [this.api()[verb](...)]. *)
Definition api (v : verb) : M nat :=
  match v with
  | Get params endpoint => CD_Model.api_get params endpoint
  | Put data endpoint => CD_Model.api_put data endpoint
  | Post data endpoint => CD_Model.api_post data endpoint
  | Delete data params => CD_Model.api_delete data params
  end.

(** The parameters [init(params)] fetches with. *)
Definition init_params (params : jsarg) (ps : object) : object :=
  match params with
  | Obj o => Object.extend (Object.extend [] ps) o
  | Prim _ => ps
  end.

(** A world before any instance is constructed: no own property and no
    request yet.  The settings of the examples point at a users resource. *)
Definition fresh_world (s : settings) (r : retention) : world :=
  {| settings_of := s;
     proto_last_request := r;
     self := {| records := []; fields := [] |};
     net := [] |}.

Definition users_settings (ps : object) : settings :=
  {| s_endpoint := "http://api/users/";
     s_params := ps;
     s_attribute := "data";
     s_init := false |}.

(** ** The range of the statements *)

(** The integers that a double holds exactly and that JavaScript spells with
    all their digits: below [2^53] in absolute value.  On them a sum or a
    difference of the model is that of the program as long as the result is
    in the range too. *)
Definition safe_integer (z : Z) : bool := (Z.abs z <? 2 ^ 53)%Z.

(** No payload has a property named [length].  [CD_Result] assigns every
    property of its payload to the new record; the file is in strict mode
    and [CD_Result.prototype.length] is an accessor without a setter as soon
    as one record has been built, so the assignment of [length] throws and
    the loop of [CD_Model] stops there, with the records built so far. *)
Definition plain_payloads (x : rvalue) : bool :=
  match x with
  | RColl items =>
      forallb
        (fun kv =>
           match snd kv with
           | Obj o => negb (Object.has o "length")
           | Prim _ => true
           end) items
  | RPrim _ => true
  end.

(** The same of the payloads of a response, under [settings.attribute]. *)
Definition plain_response (resp : response) (w : world) : bool :=
  plain_payloads (response_read resp (s_attribute (settings_of w))).

(** The names a record finds on its prototypes, [length] apart: those of
    [CD_Result.prototype] and of [Object.prototype].  What they hold are
    functions and objects of the host. *)
Definition prototype_names : list string :=
  ["constructor"; "toString"; "toLocaleString"; "valueOf"; "hasOwnProperty";
   "isPrototypeOf"; "propertyIsEnumerable"; "__proto__"; "__defineGetter__";
   "__defineSetter__"; "__lookupGetter__"; "__lookupSetter__"].

(** Every clause of a filter names a data attribute: none of the names
    above. *)
Definition data_names (o : object) : bool :=
  forallb (fun k => negb (existsb (String.eqb k) prototype_names))
    (Object.keys o).

(** ** Vocabulary of the local queries *)

(** The number an identifier stands for, as [get] reads it. *)
Definition numeric_id (v : value) : number := Js.parseInt v.

(** Two numbers are equal: both are integers, and the same one ([NaN]
    equals nothing). *)
Definition same_number (a b : number) : Prop :=
  exists n, a = Num n /\ b = Num n.

(** The record carries the identifier [id]. *)
Definition record_has_id (id : value) (r : record) : Prop :=
  same_number (numeric_id (CD_Result.attr r "id")) (numeric_id id).

(** [v] is the integer [z], as a number or as the string of its decimal
    digits. *)
Definition spells (v : value) (z : Z) : Prop :=
  v = JNum (Num z) \/ v = JStr (Js.NumberToString (Num z)).

(** Every record of the store has for [id] an integer of the safe range,
    as a number or spelled, or has no [id]. *)
Definition canonical_ids (c : collection) : Prop :=
  forall r, In r (records c) ->
    CD_Result.attr r "id" = JUndef
    \/ exists z, safe_integer z = true /\ spells (CD_Result.attr r "id") z.

(** Whether a result of [get_where] holds [x]. *)
Definition returned (f : Query.found) (x : cval) : Prop :=
  match f with
  | Query.Items matched => In x matched
  | Query.Item o => o = Some x
  end.

(** The clauses a where-argument of type "object" enumerates; [null] has
    none. *)
Definition clauses_of (where_ : jsarg) : option object :=
  match where_ with
  | Obj o => Some o
  | Prim JNull => Some []
  | Prim _ => None
  end.

Section Where_vocabulary.
Context `{Host}.

(** Every clause loosely equals the attribute of the same name, and that
    attribute is there. *)
Definition satisfies (where_ : object) (x : cval) : Prop :=
  forall clause, In clause (Object.keys where_) ->
    cval_attr x clause <> JUndef
    /\ Js.loose_eq (cval_attr x clause) (Object.read where_ clause) = true.

Definition matches (where_ : object) (x : cval) : bool :=
  forallb (Query.clause_holds where_ x) (Object.keys where_).

(** Two identifiers have the same numeric value: [Number] gives the same
    number for both. *)
Definition same_numeric_value (a b : value) : Prop :=
  same_number (Js.ToNumber a) (Js.ToNumber b).

(** [get] read as a search by numeric value: what it returns is a record
    whose [id] has the numeric value of the argument, and it returns [null]
    only when no record has one. *)
Definition get_by_numeric_value (c : collection) (id : value) : Prop :=
  match Query.get id c with
  | Some x =>
      exists r, x = CRec r /\ same_numeric_value (CD_Result.attr r "id") id
  | None =>
      forall r, In r (records c) ->
        ~ same_numeric_value (CD_Result.attr r "id") id
  end.

(** [get_where] holds a record of the store exactly when the record
    satisfies every clause. *)
Definition holds_exactly_the_matching (c : collection) (where_ : object)
  (limit : value) : Prop :=
  forall r, In r (records c) ->
    (returned (Query.get_where (Obj where_) limit c) (CRec r)
     <-> satisfies where_ (CRec r)).

End Where_vocabulary.

(** A store of four records, three of them with [a] equal to 1, behind the
    bookkeeping of a constructed instance. *)
Definition sample_store : collection :=
  {| records :=
       [ [("id", JStr "5"); ("a", JNum (Num 1))];
         [("id", JNum (Num 6)); ("a", JNum (Num 1))];
         [("id", JNum (Num 7)); ("a", JNum (Num 1))];
         [("id", JNum (Num 8)); ("a", JNum (Num 2))] ];
     fields := [("_init_ajax", NBool false); ("_init", NHandle Deferred)] |}.

(** A store of two records whose [id] is a string that is not the spelling
    of an integer. *)
Definition loose_store : collection :=
  {| records := [ [("id", JStr "5abc")]; [("id", JStr "")] ];
     fields := [("_init_ajax", NBool false); ("_init", NHandle Deferred)] |}.

(** ** Vocabulary of the request lifecycle *)

(** The world with [settings.params] replaced by [ps]. *)
Definition tuned (ps : object) (w : world) : world :=
  with_settings (with_params (fun _ => ps)) w.

(** What [init] writes once its request is out. *)
Definition remember_init (id : nat) (w : world) : world :=
  with_self
    (with_fields
       (fun fs =>
          Object.set (Object.set fs "_init" (NHandle (Xhr id)))
            "_init_ajax" (NBool true))) w.

(** The methods that refresh the store and keep what it holds meanwhile. *)
Definition refreshing (e : event) : bool :=
  match e with
  | Call_init _ | Call_filter _ _ | Call_sort _ | Call_search _
  | Call_next _ | Call_prev _ | Call_page _ _ => true
  | _ => false
  end.

(** The calls that delete the own properties of the instance. *)
Definition emptying (e : event) : bool :=
  match e with
  | Call_empty | Call_replace _ => true
  | _ => false
  end.

(** The instance retains its requests: [this._last_request] is not
    [false]. *)
Definition retains (w : world) : bool :=
  match CD_Model.this_last_request w with
  | LProto R_false => false
  | _ => true
  end.

(** The records a value of a response turns into. *)
Definition records_of (x : rvalue) : list record :=
  match x with
  | RColl items => map (fun kv => CD_Result.make (snd kv)) items
  | RPrim _ => []
  end.

(** The records [response[settings.attribute]] turns into. *)
Definition loaded (resp : response) (w : world) : list record :=
  records_of (response_read resp (s_attribute (settings_of w))).

(** The bookkeeping of an initialisation that went out as request [id]. *)
Definition initialised (id : nat) (w : world) : Prop :=
  (exists x, CD_Model.this_field "_init_ajax" w = Some x /\ named_truthy x = true)
  /\ CD_Model.this_field "_init" w = Some (NHandle (Xhr id)).

(** The list of requests once [beforeSend] has run. *)
Definition before_send (w : world) : list request :=
  match CD_Model.this_last_request w with
  | LXhr prev => Transport.abort prev (net w)
  | _ => net w
  end.

Section Lifecycle_vocabulary.
Context `{Host}.

(** The call [e] hands one request to the transport. *)
Definition dispatches (e : event) (w : world) : Prop :=
  List.length (net (step e w)) = S (List.length (net w)).

(** Supersession, for two calls in a row that each send a request: the
    first request has been aborted by the time the second is out, the
    transport having aborted it just before it took the second, and
    whichever answer the network delivers first, the store ends as the store
    before the calls followed by the records of the second response, when
    no payload of that response has a property named [length]. *)
Definition second_fetch_wins (w : world) (e1 e2 : event) : Prop :=
  let w1 := step e1 w in
  let w2 := step e2 w1 in
  let a := List.length (net w) in
  let b := List.length (net w1) in
  dispatches e1 w -> dispatches e2 w1 ->
  state_of w2 a = Some (Failed "abort")
  /\ (exists r, net w2 = (Transport.abort a (net w1) ++ [r])%list
                /\ is_pending r = true)
  /\ forall ra rb,
       plain_response rb w2 = true ->
       records (self (run [Net_ok a ra; Net_ok b rb] w2))
         = (records (self w) ++ loaded rb w2)%list
       /\ records (self (run [Net_ok b rb; Net_ok a ra] w2))
         = (records (self w) ++ loaded rb w2)%list.




(** A later [init(p2)], after the calls of [history], hands back the
    request [id] and changes nothing. *)
Definition init_memoized (id : nat) (history : list event) (p2 : jsarg)
  (w : world) : Prop :=
  CD_Model.init p2 (run history w) = Returns (OfRequest id) (run history w).

End Lifecycle_vocabulary.

(** The instance can send: an endpoint is set and the retained request can
    be aborted. *)
Definition ready (w : world) : bool := endpoint_set w && abortable w.

(** Worked worlds: an instance of the users collection with one record and
    the two properties its constructor wrote, and responses of one record
    each. *)
Definition users_world (ps : object) (r : retention) : world :=
  {| settings_of := users_settings ps;
     proto_last_request := r;
     self :=
       {| records := [ [("id", JNum (Num 1))] ];
          fields := [("_init_ajax", NBool false); ("_init", NHandle Deferred)] |};
     net := [] |}.

Definition response_with (id : Z) : response :=
  [("data", RColl [("0", Obj [("id", JNum (Num id))])])].

(** The answer to request [id] reaches the loading handler: the request
    is pending and the handler was chained on it. *)
Definition delivers (id : nat) (w : world) : bool :=
  match nth_error (net w) id with
  | Some r => is_pending r && r_load r
  | None => false
  end.

(** ** Vocabulary of the further properties *)







(** No parameter is [undefined]. *)
Definition all_defined (ps : object) : Prop :=
  forall k v, In (k, v) ps -> v <> JUndef.

(** Every request still pending is the one the instance retains. *)
Definition single_flight (w : world) : Prop :=
  forall id r,
    nth_error (net w) id = Some r -> is_pending r = true ->
    CD_Model.this_last_request w = LXhr id.

(** The own properties of an instance right after construction. *)
Definition constructed_fields : list (string * named) :=
  [("_init_ajax", NBool false); ("_init", NHandle Deferred)].

(** The new object once the constructor has written its two own
    properties. *)
Definition constructed (w : world) : world :=
  with_self (fun _ => {| records := []; fields := constructed_fields |}) w.

(** ** Reading back the decimal spelling of an integer *)

(** The number a run of decimal digits stands for, [acc] being the number
    read so far. *)
Fixpoint uint_val (d : Decimal.uint) (acc : Z) : Z :=
  match d with
  | Decimal.Nil => acc
  | Decimal.D0 l => uint_val l (10 * acc + 0)
  | Decimal.D1 l => uint_val l (10 * acc + 1)
  | Decimal.D2 l => uint_val l (10 * acc + 2)
  | Decimal.D3 l => uint_val l (10 * acc + 3)
  | Decimal.D4 l => uint_val l (10 * acc + 4)
  | Decimal.D5 l => uint_val l (10 * acc + 5)
  | Decimal.D6 l => uint_val l (10 * acc + 6)
  | Decimal.D7 l => uint_val l (10 * acc + 7)
  | Decimal.D8 l => uint_val l (10 * acc + 8)
  | Decimal.D9 l => uint_val l (10 * acc + 9)
  end%Z.

(** Every record of the store has an integer of the safe range for [id],
    or none. *)
Definition integer_ids (c : collection) : Prop :=
  forall r, In r (records c) ->
    CD_Result.attr r "id" = JUndef
    \/ exists z, safe_integer z = true /\ CD_Result.attr r "id" = JNum (Num z).

(** ** [like] *)

(** The regular expressions of the host: [new RegExp(source, 'gi')] compiles
    a source or throws a SyntaxError, and [s.match(re)] finds an occurrence
    or none. *)
Class RegExpHost := {
  regexp : Type;
  new_RegExp : string -> option regexp;
  has_match : regexp -> string -> bool
}.

Definition invalid_pattern : string :=
  "SyntaxError: Invalid regular expression".

Definition keys_of_null : string :=
  "TypeError: Cannot convert undefined or null to object".

Section Like.
Context `{RegExpHost}.

(** The source [new RegExp(v, 'gi')] compiles: the empty one for
    [undefined], else the string of [v]. *)
Definition pattern_source (v : value) : string :=
  match v with
  | JUndef => ""
  | _ => Js.ToString v
  end.

(** One clause on one own property: the expression is built first, then
    [typeof self[prop][clause] !== 'undefined' && self[prop][clause] !== null
     && self[prop][clause].toString().match(re)].  [inl] is what is
    thrown. *)
Definition like_clause (like_ : object) (x : cval) (clause : string)
  : string + bool :=
  match new_RegExp (pattern_source (Object.read like_ clause)) with
  | None => inl invalid_pattern
  | Some re =>
      inr (CD_Model.defined (cval_attr x clause)
           && negb (Js.strict_eq (cval_attr x clause) JNull)
           && has_match re (Js.ToString (cval_attr x clause)))
  end.

(** The inner loop, which counts in [match] the clauses that hold. *)
Fixpoint like_clauses (like_ : object) (x : cval) (clauses : list string)
  (match_ : nat) : string + nat :=
  match clauses with
  | [] => inr match_
  | clause :: rest =>
      match like_clause like_ x clause with
      | inl e => inl e
      | inr true => like_clauses like_ x rest (S match_)
      | inr false => like_clauses like_ x rest match_
      end
  end.

(** The outer loop.  Only [null] reaches it as a primitive, and
    [Object.keys(null)] throws. *)
Fixpoint like_loop (like_ : jsarg) (props : list cval) (matched : list cval)
  : string + list cval :=
  match props with
  | [] => inr matched
  | x :: rest =>
      match like_ with
      | Obj o =>
          match like_clauses o x (Object.keys o) 0 with
          | inl e => inl e
          | inr match_ =>
              like_loop like_ rest
                (if Nat.eqb match_ (List.length (Object.keys o))
                 then (matched ++ [x])%list else matched)
          end
      | Prim _ => inl keys_of_null
      end
  end.

(** [like(like)]. *)
Definition like (like_ : jsarg) (c : collection) : string + list cval :=
  if negb (String.eqb (Js.typeof_arg like_) "object") then inr []
  else like_loop like_ (own_values c) [].

(** *** Vocabulary of [like] *)

(** The clause holds of the own property. *)
Definition like_holds (like_ : object) (x : cval) (clause : string) : bool :=
  match like_clause like_ x clause with
  | inr b => b
  | inl _ => false
  end.

(** Every clause holds. *)
Definition resembles (like_ : object) (x : cval) : bool :=
  forallb (like_holds like_ x) (Object.keys like_).

(** The source of the clause compiles. *)
Definition compiles (like_ : object) (clause : string) : Prop :=
  new_RegExp (pattern_source (Object.read like_ clause)) <> None.

End Like.

(** *** A host of expressions for worked examples *)

Definition lower (c : ascii) : ascii :=
  let n := nat_of_ascii c in
  if ((65 <=? n) && (n <=? 90))%nat then ascii_of_nat (n + 32) else c.

Fixpoint lower_string (s : string) : string :=
  match s with
  | EmptyString => EmptyString
  | String c t => String (lower c) (lower_string t)
  end.

Fixpoint all_alnum (s : string) : bool :=
  match s with
  | EmptyString => true
  | String c t =>
      let n := nat_of_ascii c in
      ((48 <=? n) && (n <=? 57) || (65 <=? n) && (n <=? 90)
       || (97 <=? n) && (n <=? 122))%nat
      && all_alnum t
  end.

Fixpoint occurs (p s : string) : bool :=
  String.prefix p s
  || match s with
     | EmptyString => false
     | String _ t => occurs p t
     end.

(** Sources made of letters and digits, found as substrings whatever the
    case; any other source is refused.  It agrees with [RegExp] under the
    flags [gi] on the sources it accepts. *)
#[export] Instance literal_host : RegExpHost :=
  {| regexp := string;
     new_RegExp := fun s => if all_alnum s then Some (lower_string s) else None;
     has_match := fun re s => occurs re (lower_string s) |}.

(** * Verification *)

(** ** Properties of plain objects *)

Section Object_facts.
Context {V : Type}.
Implicit Types (o : list (string * V)) (k : string) (v : V).

Lemma get_set_same o k v : Object.get (Object.set o k v) k = Some v.
Proof.
  induction o as [|[k' v'] t IH]; simpl.
  - now rewrite String.eqb_refl.
  - destruct (String.eqb k k') eqn:E; simpl; rewrite E; auto.
Qed.

Lemma get_set_other o k k' v :
  k <> k' -> Object.get (Object.set o k v) k' = Object.get o k'.
Proof.
  intros Hne; induction o as [|[k0 v0] t IH]; simpl.
  - apply String.eqb_neq in Hne. rewrite String.eqb_sym in Hne. now rewrite Hne.
  - destruct (String.eqb k k0) eqn:E; simpl.
    + apply String.eqb_eq in E; subst k0.
      destruct (String.eqb k' k) eqn:E'; auto.
      apply String.eqb_eq in E'; congruence.
    + now rewrite IH.
Qed.



Lemma has_set_same o k v : Object.has (Object.set o k v) k = true.
Proof. unfold Object.has. now rewrite get_set_same. Qed.

Lemma get_in_keys o k v : Object.get o k = Some v -> In k (Object.keys o).
Proof.
  induction o as [|[k' v'] t IH]; simpl; [discriminate|].
  destruct (String.eqb k k') eqn:E; intros G.
  - apply String.eqb_eq in E; auto.
  - auto.
Qed.

Lemma in_keys_get o k : In k (Object.keys o) -> exists v, Object.get o k = Some v.
Proof.
  induction o as [|[k' v'] t IH]; simpl; [tauto|].
  intros [->|Hin].
  - rewrite String.eqb_refl; eauto.
  - destruct (String.eqb k k'); eauto.
Qed.

End Object_facts.

Lemma read_set_same (o : object) (k : string) (v : value) :
  Object.read (Object.set o k v) k = v.
Proof. unfold Object.read. now rewrite get_set_same. Qed.

Lemma read_set_other (o : object) (k k' : string) (v : value) :
  k <> k' -> Object.read (Object.set o k v) k' = Object.read o k'.
Proof. intros Hne. unfold Object.read. now rewrite get_set_other. Qed.

(** [$.extend] copies the defined properties of its source over the
    target. *)
Lemma read_extend_step_other (src acc : object) (k0 k : string) :
  k0 <> k -> Object.read (Object.extend_step src acc k0) k = Object.read acc k.
Proof.
  intros Hne. unfold Object.extend_step.
  destruct (Object.is_undefined (Object.read src k0)); [reflexivity|].
  now apply read_set_other.
Qed.

Lemma read_extend_keys (src : object) (ks : list string) (acc : object) (k : string) :
  Object.read (fold_left (Object.extend_step src) ks acc) k
  = if in_dec string_dec k ks then
      if Object.is_undefined (Object.read src k) then Object.read acc k
      else Object.read src k
    else Object.read acc k.
Proof.
  revert acc; induction ks as [|k0 t IH]; intros acc; simpl; [reflexivity|].
  rewrite IH.
  destruct (string_dec k0 k) as [->|Hne].
  - unfold Object.extend_step.
    destruct (Object.is_undefined (Object.read src k)) eqn:U.
    + destruct (in_dec string_dec k t); reflexivity.
    + rewrite read_set_same. destruct (in_dec string_dec k t); reflexivity.
  - rewrite read_extend_step_other by assumption.
    destruct (in_dec string_dec k t); reflexivity.
Qed.

Lemma read_copy (o : object) (k : string) :
  Object.read (Object.copy o) k = Object.read o k.
Proof.
  unfold Object.copy, Object.extend. rewrite read_extend_keys.
  destruct (in_dec string_dec k (Object.keys o)) as [Hin|Hnin].
  - destruct (Object.read o k); reflexivity.
  - unfold Object.read at 1 2.
    destruct (Object.get o k) eqn:G; [|reflexivity].
    exfalso; eauto using get_in_keys.
Qed.

(** ** Lists of requests *)

Lemma update_request_length (id : nat) (f : request -> request) (l : list request) :
  List.length (update_request id f l) = List.length l.
Proof.
  revert id; induction l as [|r t IH]; intros [|n]; simpl; auto.
Qed.

Lemma update_request_last (f : request -> request) (l : list request) (r : request) :
  update_request (List.length l) f (l ++ [r])%list = (l ++ [f r])%list.
Proof.
  induction l as [|x t IH]; simpl; [reflexivity | now rewrite IH].
Qed.

Lemma update_request_front (id : nat) (f : request -> request)
  (l : list request) (r : request) :
  (id < List.length l)%nat ->
  update_request id f (l ++ [r])%list = (update_request id f l ++ [r])%list.
Proof.
  revert id; induction l as [|x t IH]; intros [|n] Hlt; simpl in *;
    try lia; try reflexivity.
  rewrite IH by lia; reflexivity.
Qed.

Lemma update_request_nth (id : nat) (f : request -> request) (l : list request) :
  nth_error (update_request id f l) id = option_map f (nth_error l id).
Proof.
  revert id; induction l as [|x t IH]; intros [|n]; simpl; auto.
Qed.

Lemma update_request_nth_other (id j : nat) (f : request -> request)
  (l : list request) :
  id <> j -> nth_error (update_request id f l) j = nth_error l j.
Proof.
  revert id j; induction l as [|x t IH]; intros [|n] [|m] Hne; simpl; auto;
    congruence.
Qed.

Lemma abort_length (id : nat) (l : list request) :
  List.length (Transport.abort id l) = List.length l.
Proof. apply update_request_length. Qed.

(** ** What one fetch does *)

Section Controller_facts.
Context `{Host}.

Lemma fetch_spec (w : world) :
  CD_Model.fetch w =
    if negb (endpoint_set w) then Throws CD_Model.not_set_up w
    else if abortable w then Returns (List.length (net w)) (sent w)
    else Throws "TypeError: lq.abort is not a function" w.
Proof.
  unfold CD_Model.fetch, CD_Model.api_get, CD_Model._make_request, endpoint_set,
    abortable, sent, bind, gets.
  destruct (Js.truthy (JStr (s_endpoint (settings_of w)))) eqn:E; simpl; [|reflexivity].
  destruct (CD_Model.this_last_request w) as [[| |]|prev|] eqn:L; simpl;
    unfold Transport.ajax, Transport.done, set_field, modify, bind, gets, ret, throw;
    simpl; try reflexivity;
    unfold with_net, with_self; simpl;
    rewrite update_request_last, ?abort_length; reflexivity.
Qed.

End Controller_facts.

(** ** The worked worlds are constructed instances *)

Example users_world_constructed (ps : object) (r : retention) :
  exists w',
    CD_Model.Model_Collection (RColl [("0", Obj [("id", JNum (Num 1))])])
      (fresh_world (users_settings ps) r)
    = Returns tt w'
    /\ records (self w') = records (self (users_world ps r))
    /\ CD_Model.this_field "_init_ajax" w'
       = CD_Model.this_field "_init_ajax" (users_world ps r)
    /\ CD_Model.this_field "_init" w'
       = CD_Model.this_field "_init" (users_world ps r)
    /\ settings_of w' = settings_of (users_world ps r)
    /\ net w' = net (users_world ps r).
Proof. eexists. split; [reflexivity|]. repeat split. Qed.

(** ** Verbs without an endpoint *)

(** C9: each of the four verbs, called while [settings.endpoint] is unset,
    throws the set-up error at once: the call does not return a promise, the
    world is the one it started from, and no request reached the
    transport. *)
Theorem verbs_throw_without_endpoint (v : verb) (w : world) :
  endpoint_set w = false ->
  api v w = Throws CD_Model.not_set_up w
  /\ net (world_after (api v w)) = net w.
Proof.
  intros E.
  assert (A : api v w = Throws CD_Model.not_set_up w).
  { unfold endpoint_set in E.
    destruct v; unfold api, CD_Model.api_get, CD_Model.api_put, CD_Model.api_post,
      CD_Model.api_delete, CD_Model._make_request, bind, gets; rewrite E; reflexivity. }
  rewrite A; split; reflexivity.
Qed.

Lemma verbs_throw_without_endpoint_witness :
  endpoint_set (fresh_world Model_Collection_defaults R_false) = false
  /\ api (Post (Obj [("name", JStr "Jo")]) (JStr "new"))
       (fresh_world Model_Collection_defaults R_false)
     = Throws CD_Model.not_set_up (fresh_world Model_Collection_defaults R_false).
Proof.
  split; [reflexivity|].
  apply (verbs_throw_without_endpoint
           (Post (Obj [("name", JStr "Jo")]) (JStr "new"))
           (fresh_world Model_Collection_defaults R_false)).
  reflexivity.
Defined.

(** ** [empty] and the bookkeeping of [init] *)

Section Empty_facts.
Context `{Host}.



End Empty_facts.


(** ** Frame of a fetch *)

Section Fetch_frame.
Context `{Host}.

Lemma fetched_spec (w : world) :
  CD_Model.fetched w =
    match CD_Model.fetch w with
    | Returns id w' => Returns (OfRequest id) w'
    | Throws e w' => Throws e w'
    end.
Proof. unfold CD_Model.fetched, bind, ret. destruct (CD_Model.fetch w); reflexivity. Qed.

Lemma fetched_after (w : world) :
  world_after (CD_Model.fetched w) = world_after (CD_Model.fetch w).
Proof. rewrite fetched_spec. destruct (CD_Model.fetch w); reflexivity. Qed.

(** A fetch either goes out, and the world is [sent w], or throws and
    leaves the world as it was. *)
Lemma fetch_after (w : world) :
  world_after (CD_Model.fetch w) =
    if endpoint_set w && abortable w then sent w else w.
Proof.
  rewrite fetch_spec.
  destruct (endpoint_set w), (abortable w); reflexivity.
Qed.

Lemma sent_settings (w : world) : settings_of (sent w) = settings_of w.
Proof. reflexivity. Qed.

Lemma sent_records (w : world) : records (self (sent w)) = records (self w).
Proof.
  unfold sent; simpl. destruct (CD_Model.this_last_request w) as [[| |]| |]; reflexivity.
Qed.

Lemma fetch_settings (w : world) :
  settings_of (world_after (CD_Model.fetch w)) = settings_of w.
Proof.
  rewrite fetch_after. destruct (endpoint_set w && abortable w); reflexivity.
Qed.


End Fetch_frame.

(** ** Pagination: the fetching methods against the URL-only ones *)

Section Pagination_facts.
Context `{Host}.

(** The parameters after [next(count)], when a limit is there. *)
Lemma next_params (count : value) (w : world) :
  Object.has (params_of w) "limit" = true ->
  params_of (world_after (CD_Model.next count w)) =
    let ps1 := if CD_Model.defined count
               then Object.set (params_of w) "limit" (Js.plus count)
               else params_of w in
    let ps2 := if Object.has ps1 "offset" then ps1
               else Object.set ps1 "offset" (JNum (Num 0)) in
    Object.set ps2 "offset" (Js.add (Object.read ps2 "offset") (Object.read ps2 "limit")).
Proof.
  intros L. unfold CD_Model.next, CD_Model.take_count, bind, gets, when.
  rewrite L; simpl.
  destruct (CD_Model.defined count); simpl;
    match goal with
    | |- context [Object.has ?p "offset"] => destruct (Object.has p "offset") eqn:O
    end; simpl; unfold params_of at 1; rewrite fetched_after, fetch_settings;
    unfold params_of in *; simpl in *; rewrite ?O; reflexivity.
Qed.

(** The parameters after [page(n, count)], when a limit is there. *)
Lemma page_params (n count : value) (w : world) :
  Object.has (params_of w) "limit" = true ->
  params_of (world_after (CD_Model.page n count w)) =
    let ps1 := if CD_Model.defined count
               then Object.set (params_of w) "limit" (Js.plus count)
               else params_of w in
    let ps2 := if Object.has ps1 "offset" then ps1
               else Object.set ps1 "offset" (JNum (Num 0)) in
    Object.set ps2 "offset" (Js.mul (Object.read ps2 "limit") (Js.sub n (JNum (Num 1)))).
Proof.
  intros L. unfold CD_Model.page, CD_Model.take_count, bind, gets, when.
  rewrite L; simpl.
  destruct (CD_Model.defined count); simpl;
    match goal with
    | |- context [Object.has ?p "offset"] => destruct (Object.has p "offset") eqn:O
    end; simpl; unfold params_of at 1; rewrite fetched_after, fetch_settings;
    unfold params_of in *; simpl in *; rewrite ?O; reflexivity.
Qed.

End Pagination_facts.

Section Pagination_agreement.
Context `{Host}.

Lemma get_read (ps : object) (k : string) (v : value) :
  Object.get ps k = Some v -> Object.read ps k = v.
Proof. intros G. unfold Object.read. now rewrite G. Qed.

Lemma get_has (ps : object) (k : string) (v : value) :
  Object.get ps k = Some v -> Object.has ps k = true.
Proof. intros G. unfold Object.has. now rewrite G. Qed.

(** X23: with a numeric offset and a numeric limit in the parameters, and
    [count] omitted or a number other than 0, [next] and [url_next] reach
    the same offset, the old one plus the limit in force. *)
Theorem next_url_next_agree (w : world) (count : value) (o l lim : Z) :
  Object.get (params_of w) "offset" = Some (JNum (Num o)) ->
  Object.get (params_of w) "limit" = Some (JNum (Num l)) ->
  (count = JUndef /\ lim = l) \/ count = JNum (Num lim) ->
  lim <> 0%Z ->
  Object.read (params_of (world_after (CD_Model.next count w))) "offset"
    = JNum (Num (o + lim))
  /\ exists ps,
       CD_Model.url_next_params count w = Some ps
       /\ Object.read ps "offset" = JNum (Num (o + lim)).
Proof.
  intros O L C Hnz.
  assert (Z0 : Z.eqb lim 0 = false) by now apply Z.eqb_neq.
  split.
  - rewrite next_params by eauto using get_has.
    destruct C as [[-> ->] | ->]; simpl.
    + rewrite (get_has _ _ _ O), read_set_same.
      now rewrite (get_read _ _ _ O), (get_read _ _ _ L).
    + unfold Object.has. rewrite get_set_other, O by discriminate.
      rewrite read_set_same, read_set_other, read_set_same by discriminate.
      now rewrite (get_read _ _ _ O).
  - unfold CD_Model.url_next_params, Js.or_else.
    destruct C as [[-> ->] | ->]; simpl.
    + rewrite (get_read _ _ _ L); simpl. rewrite Z0; simpl.
      eexists; split; [reflexivity|].
      now rewrite read_set_same, read_copy, (get_read _ _ _ O).
    + rewrite Z0; simpl. rewrite Z0; simpl.
      eexists; split; [reflexivity|].
      now rewrite read_set_same, read_copy, (get_read _ _ _ O).
Qed.

(** When the parameters hold a numeric limit and no offset, [next] starts
    from 0 whereas [url_next] adds the limit to [+undefined]. *)
Theorem next_url_next_differ (w : world) (l : Z) :
  Object.get (params_of w) "offset" = None ->
  Object.get (params_of w) "limit" = Some (JNum (Num l)) ->
  l <> 0%Z ->
  Object.read (params_of (world_after (CD_Model.next JUndef w))) "offset"
    = JNum (Num l)
  /\ exists ps,
       CD_Model.url_next_params JUndef w = Some ps
       /\ Object.read ps "offset" = JNum NaN.
Proof.
  intros O L Hnz.
  assert (Z0 : Z.eqb l 0 = false) by now apply Z.eqb_neq.
  split.
  - rewrite next_params by eauto using get_has. simpl.
    assert (A : Object.has (params_of w) "offset" = false)
      by (unfold Object.has; now rewrite O).
    rewrite A, !read_set_same.
    rewrite read_set_other, (get_read _ _ _ L) by discriminate.
    reflexivity.
  - unfold CD_Model.url_next_params, Js.or_else; simpl.
    rewrite (get_read _ _ _ L); simpl. rewrite Z0; simpl.
    eexists; split; [reflexivity|].
    rewrite read_set_same, read_copy.
    unfold Object.read. now rewrite O.
Qed.

(** X24: with [count] omitted and a numeric limit other than 0, [page] and
    [url_page] both reach [limit * (n - 1)]. *)
Theorem page_url_page_agree (w : world) (n l : Z) :
  Object.get (params_of w) "limit" = Some (JNum (Num l)) ->
  l <> 0%Z ->
  Object.read (params_of (world_after (CD_Model.page (JNum (Num n)) JUndef w))) "offset"
    = JNum (Num (l * (n - 1)))
  /\ exists ps,
       CD_Model.url_page_params (JNum (Num n)) JUndef w = Some ps
       /\ Object.read ps "offset" = JNum (Num (l * (n - 1))).
Proof.
  intros L Hnz.
  assert (Z0 : Z.eqb l 0 = false) by now apply Z.eqb_neq.
  split.
  - rewrite page_params by eauto using get_has. simpl.
    rewrite read_set_same.
    destruct (Object.has (params_of w) "offset").
    + now rewrite (get_read _ _ _ L).
    + now rewrite read_set_other, (get_read _ _ _ L) by discriminate.
  - unfold CD_Model.url_page_params, Js.or_else; simpl.
    rewrite (get_read _ _ _ L); simpl. rewrite Z0; simpl.
    eexists; split; [reflexivity|].
    now rewrite read_set_same.
Qed.

(** Given a [count], [url_page] still multiplies the limit of the settings:
    the offset it computes does not depend on [count]. *)
Theorem url_page_ignores_count (w : world) (n count : value) :
  Js.truthy count = true ->
  exists ps,
    CD_Model.url_page_params n count w = Some ps
    /\ Object.read ps "offset"
       = Js.mul (Object.read (params_of w) "limit") (Js.sub n (JNum (Num 1))).
Proof.
  intros T. unfold CD_Model.url_page_params, Js.or_else. rewrite T, T; simpl.
  eexists; split; [reflexivity|]. now rewrite read_set_same.
Qed.

(** C2, at a parameter map without offset: [settings.params = {limit: 10}]
    and [count = 10].  [next] treats the missing offset as 0 and moves to
    10; [url_next] builds a URL whose offset is [NaN], so the two do not
    compute the same offset.  ([url_next] is a function of the world that
    returns a string: it has no effect on the parameters or the
    transport.) *)
Theorem url_next_without_offset :
  let w := fresh_world (users_settings [("limit", JNum (Num 10))]) R_false in
  CD_Model.url_next (JNum (Num 10)) w = "http://api/users/?limit=10&offset=NaN"
  /\ params_of (world_after (CD_Model.next (JNum (Num 10)) w))
     = [("limit", JNum (Num 10)); ("offset", JNum (Num 10))].
Proof. split; reflexivity. Qed.

(** C3, at a call that passes the limit as [count]:
    [settings.params = {limit: 10, offset: 0}], page 3, [count = 50].
    [page] takes 50 as the limit and moves to [50 * (3 - 1) = 100];
    [url_page] multiplies the limit of the settings and builds the URL of
    offset [10 * (3 - 1) = 20]. *)
Theorem url_page_with_count :
  let w := fresh_world
             (users_settings [("limit", JNum (Num 10)); ("offset", JNum (Num 0))])
             R_false in
  CD_Model.url_page (JNum (Num 3)) (JNum (Num 50)) w
    = "http://api/users/?limit=10&offset=20"
  /\ params_of (world_after (CD_Model.page (JNum (Num 3)) (JNum (Num 50)) w))
     = [("limit", JNum (Num 50)); ("offset", JNum (Num 100))].
Proof. split; reflexivity. Qed.

End Pagination_agreement.

(** ** [get] *)

Lemma defined_spec (v : value) : CD_Model.defined v = true <-> v <> JUndef.
Proof.
  destruct v; unfold CD_Model.defined; simpl; split; intros E;
    try reflexivity; try discriminate; try congruence.
Qed.

Lemma num_eqb_spec (a b : number) : Js.num_eqb a b = true <-> same_number a b.
Proof.
  unfold same_number; destruct a as [|x], b as [|y]; simpl; split;
    try discriminate; try (intros (n & E1 & E2); discriminate).
  - intros E; apply Z.eqb_eq in E; subst; eauto.
  - intros (n & E1 & E2). inversion E1; inversion E2; subst. apply Z.eqb_refl.
Qed.

Lemma same_id_record (id : value) (r : record) :
  Query.same_id id (CRec r) = true <-> record_has_id id r.
Proof.
  unfold Query.same_id, record_has_id, numeric_id; simpl.
  rewrite andb_true_iff, num_eqb_spec, defined_spec. split.
  - tauto.
  - intros S; split; [|exact S].
    intros U; rewrite U in S. destruct S as (n & E & _). discriminate.
Qed.

Lemma same_id_named (id : value) (x : named) : Query.same_id id (CNamed x) = false.
Proof. reflexivity. Qed.

Lemma get_loop_app (id : value) (l1 l2 : list cval) :
  Query.get_loop id (l1 ++ l2) =
    match Query.get_loop id l1 with
    | Some x => Some x
    | None => Query.get_loop id l2
    end.
Proof.
  induction l1 as [|x t IH]; simpl; [reflexivity|].
  destruct (Query.same_id id x); auto.
Qed.

Lemma get_loop_named (id : value) (fs : list (string * named)) :
  Query.get_loop id (map (fun kv => CNamed (snd kv)) fs) = None.
Proof. induction fs as [|kv t IH]; simpl; auto. Qed.

Lemma get_loop_records (id : value) (rs : list record) :
  match Query.get_loop id (map CRec rs) with
  | Some x =>
      exists before r after,
        x = CRec r /\ rs = (before ++ r :: after)%list
        /\ record_has_id id r
        /\ forall r', In r' before -> ~ record_has_id id r'
  | None => forall r, In r rs -> ~ record_has_id id r
  end.
Proof.
  induction rs as [|r t IH]; simpl.
  - intros r [].
  - destruct (Query.same_id id (CRec r)) eqn:E.
    + exists [], r, t.
      split; [reflexivity|]. split; [reflexivity|].
      split; [now apply same_id_record|]. intros r' [].
    + assert (N : ~ record_has_id id r).
      { intros S. apply same_id_record in S. congruence. }
      destruct (Query.get_loop id (map CRec t)) as [x|].
      * destruct IH as (before & r0 & after & -> & -> & Hid & Hb).
        exists (r :: before), r0, after.
        split; [reflexivity|]. split; [reflexivity|]. split; [exact Hid|].
        intros r' [<-|Hin]; auto.
      * intros r' [<-|Hin]; auto.
Qed.

Lemma get_finds_first (c : collection) (id : value) :
  match Query.get id c with
  | Some x =>
      exists before r after,
        x = CRec r /\ records c = (before ++ r :: after)%list
        /\ record_has_id id r
        /\ forall r', In r' before -> ~ record_has_id id r'
  | None => forall r, In r (records c) -> ~ record_has_id id r
  end.
Proof.
  unfold Query.get, own_values. rewrite get_loop_app, get_loop_named.
  pose proof (get_loop_records id (records c)) as G.
  destruct (Query.get_loop id (map CRec (records c))); exact G.
Qed.

(** A string finds a number and a number finds a string. *)
Example get_across_types :
  Query.get (JNum (Num 5)) sample_store
    = Some (CRec [("id", JStr "5"); ("a", JNum (Num 1))])
  /\ Query.get (JStr "7") sample_store
    = Some (CRec [("id", JNum (Num 7)); ("a", JNum (Num 1))])
  /\ Query.get (JStr "nine") sample_store = None.
Proof. repeat split; reflexivity. Qed.

(** ** [get_where] *)

Section Where_facts.
Context `{Host}.

Lemma clause_holds_spec (where_ : object) (x : cval) (clause : string) :
  Query.clause_holds where_ x clause = true <->
  cval_attr x clause <> JUndef
  /\ Js.loose_eq (cval_attr x clause) (Object.read where_ clause) = true.
Proof.
  unfold Query.clause_holds. now rewrite andb_true_iff, defined_spec.
Qed.

Lemma matches_satisfies (where_ : object) (x : cval) :
  matches where_ x = true <-> satisfies where_ x.
Proof.
  unfold matches, satisfies. rewrite forallb_forall.
  split; intros A clause Hin; apply clause_holds_spec; auto.
Qed.

(** After the first inner loop the table holds the verdict of every clause
    and keeps what it held for other names. *)
Lemma fill_truth_table_get (where_ : object) (x : cval)
  (tt : list (string * bool)) (k : string) :
  Object.get (Query.fill_truth_table where_ x tt) k =
    if in_dec string_dec k (Object.keys where_)
    then Some (Query.clause_holds where_ x k)
    else Object.get tt k.
Proof.
  unfold Query.fill_truth_table.
  generalize (Object.keys where_) as ks. intros ks; revert tt.
  induction ks as [|k0 t IH]; intros tt; simpl; [reflexivity|].
  rewrite IH.
  destruct (string_dec k0 k) as [->|Hne].
  - destruct (in_dec string_dec k t); [reflexivity|apply get_set_same].
  - destruct (in_dec string_dec k t); [reflexivity|now apply get_set_other].
Qed.

Lemma include_fold (tt : list (string * bool)) (ks : list string) (b : bool) :
  fold_left
    (fun inc clause =>
       match Object.get tt clause with
       | Some false => false
       | _ => inc
       end) ks b
  = b && forallb
           (fun clause =>
              match Object.get tt clause with
              | Some false => false
              | _ => true
              end) ks.
Proof.
  revert b; induction ks as [|k t IH]; intros b; simpl.
  - now rewrite andb_true_r.
  - rewrite IH. destruct (Object.get tt k) as [[|]|]; simpl; auto.
    now rewrite andb_false_r.
Qed.

(** The table never holds a name that is not a clause, so stale entries
    cannot veto a record. *)
Lemma include_fill_truth_table (where_ : object) (x : cval)
  (tt : list (string * bool)) :
  incl (Object.keys tt) (Object.keys where_) ->
  Query.include (Query.fill_truth_table where_ x tt) = matches where_ x.
Proof.
  intros Hincl. unfold Query.include. rewrite include_fold; simpl.
  apply eq_true_iff_eq. unfold matches. rewrite !forallb_forall. split.
  - intros A k Hin.
    pose proof (fill_truth_table_get where_ x tt k) as G.
    destruct (in_dec string_dec k (Object.keys where_)); [|contradiction].
    specialize (A k (get_in_keys _ _ _ G)). rewrite G in A.
    destruct (Query.clause_holds where_ x k); [reflexivity|discriminate].
  - intros A k Hin.
    destruct (in_keys_get _ _ Hin) as [v G]. rewrite G.
    rewrite fill_truth_table_get in G.
    destruct (in_dec string_dec k (Object.keys where_)) as [Hk|Hk].
    + inversion G; subst. now rewrite (A k Hk).
    + exfalso. apply Hk, Hincl. eauto using get_in_keys.
Qed.

Lemma fill_truth_table_keys (where_ : object) (x : cval)
  (tt : list (string * bool)) :
  incl (Object.keys tt) (Object.keys where_) ->
  incl (Object.keys (Query.fill_truth_table where_ x tt)) (Object.keys where_).
Proof.
  intros Hincl k Hin. destruct (in_keys_get _ _ Hin) as [v G].
  rewrite fill_truth_table_get in G.
  destruct (in_dec string_dec k (Object.keys where_)); [assumption|].
  apply Hincl. eauto using get_in_keys.
Qed.

Lemma strict_eq_length (n k : nat) :
  Js.strict_eq (JNum (Num (Z.of_nat n))) (JNum (Num (Z.of_nat k))) = Nat.eqb n k.
Proof.
  simpl. destruct (Nat.eqb_spec n k) as [->|Hne].
  - apply Z.eqb_refl.
  - apply Z.eqb_neq. lia.
Qed.

(** A limit that no length can equal never stops the scan. *)
Lemma obj_props_unlimited (where_ : object) (limit : value) (props : list cval) :
  (forall n, Js.strict_eq (JNum (Num (Z.of_nat n))) limit = false) ->
  forall tt matched,
    incl (Object.keys tt) (Object.keys where_) ->
    Query.obj_props where_ limit props tt matched
    = (matched ++ List.filter (matches where_) props)%list.
Proof.
  intros Hlim. induction props as [|x rest IH]; intros tt matched Hincl;
    cbn [Query.obj_props List.filter].
  - now rewrite app_nil_r.
  - rewrite include_fill_truth_table by assumption.
    rewrite Hlim, IH by now apply fill_truth_table_keys.
    destruct (matches where_ x); [now rewrite <- app_assoc | reflexivity].
Qed.

(** A limit [k] stops the scan at the [k]-th match. *)
Lemma obj_props_limited (where_ : object) (k : nat) (props : list cval) :
  forall tt matched,
    incl (Object.keys tt) (Object.keys where_) ->
    (List.length matched < k)%nat ->
    Query.obj_props where_ (JNum (Num (Z.of_nat k))) props tt matched
    = (matched
       ++ firstn (k - List.length matched) (List.filter (matches where_) props))%list.
Proof.
  induction props as [|x rest IH]; intros tt matched Hincl Hlt;
    cbn [Query.obj_props List.filter].
  - now rewrite firstn_nil, app_nil_r.
  - rewrite include_fill_truth_table by assumption.
    rewrite strict_eq_length.
    destruct (matches where_ x).
    + rewrite length_app; simpl.
      destruct (Nat.eqb_spec (List.length matched + 1) k) as [E|Hne].
      * replace (k - List.length matched)%nat with 1%nat by lia. reflexivity.
      * rewrite IH; [| now apply fill_truth_table_keys | rewrite length_app; simpl; lia].
        rewrite length_app; simpl.
        replace (k - List.length matched)%nat
          with (S (k - (List.length matched + 1)))%nat by lia.
        simpl. now rewrite <- app_assoc.
    + destruct (Nat.eqb_spec (List.length matched) k) as [E|Hne]; [lia|].
      apply IH; [now apply fill_truth_table_keys | assumption].
Qed.

Lemma in_own_values_record (c : collection) (r : record) :
  In (CRec r) (own_values c) <-> In r (records c).
Proof.
  unfold own_values. rewrite in_app_iff, !in_map_iff. split.
  - intros [(r' & E & Hin) | (kv & E & _)]; [now inversion E; subst | discriminate].
  - intros Hin. left. eauto.
Qed.

Lemma filter_own_values (where_ : object) (c : collection) :
  List.filter (matches where_) (own_values c)
  = (map CRec (List.filter (fun r => matches where_ (CRec r)) (records c))
     ++ List.filter (matches where_)
          (map (fun kv => CNamed (snd kv)) (fields c)))%list.
Proof.
  unfold own_values. rewrite filter_app. f_equal.
  induction (records c) as [|r t IH]; simpl; [reflexivity|].
  destruct (matches where_ (CRec r)); simpl; now rewrite IH.
Qed.

Lemma filter_named_no_record (where_ : object) (c : collection) (x : cval) :
  In x (List.filter (matches where_)
          (map (fun kv => CNamed (snd kv)) (fields c))) ->
  forall r, x <> CRec r.
Proof.
  intros Hin r E. apply filter_In in Hin. destruct Hin as [Hin _].
  apply in_map_iff in Hin. destruct Hin as (kv & K & _). congruence.
Qed.

Lemma in_record_hits (where_ : object) (c : collection) (r : record) :
  In (CRec r)
     (map CRec (List.filter (fun r => matches where_ (CRec r)) (records c)))
  <-> In r (records c) /\ satisfies where_ (CRec r).
Proof.
  rewrite in_map_iff. split.
  - intros (r' & E & Hin). inversion E; subst r'.
    apply filter_In in Hin. now rewrite matches_satisfies in Hin.
  - intros [Hin S]. exists r. split; [reflexivity|].
    apply filter_In. now rewrite matches_satisfies.
Qed.

(** C5, as the code has it: a where-argument that is not of type "object"
    gives the empty array.  Otherwise, for clauses that name data
    attributes, the hits are first the records of the store, in store
    order, that satisfy every clause (all of them must loosely equal the
    attribute of the same name, and a missing attribute fails its clause),
    then whatever other own properties of the instance pass the same test,
    none of them a record.  Without a limit [get_where] returns the hits,
    so it holds a record exactly when the record is in the store and
    satisfies the clauses; a limit [k >= 2] keeps the first [k] hits, which
    are the first [k] satisfying records when there are that many; and
    [limit === 1] returns the first hit itself, the first satisfying record
    when there is one, or [undefined] when there is no hit. *)
Theorem get_where_returns_first_matches (c : collection) (where_ : jsarg)
  (limit : value) :
  (Js.typeof_arg where_ <> "object" ->
   Query.get_where where_ limit c = Query.Items [])
  /\ (forall w, data_names w = true -> holds_exactly_the_matching c w JUndef)
  /\ (forall w, clauses_of where_ = Some w -> data_names w = true ->
      let rhits :=
        map CRec (List.filter (fun r => matches w (CRec r)) (records c)) in
      (forall r, In (CRec r) rhits <-> In r (records c) /\ satisfies w (CRec r))
      /\ (exists others,
            (forall x, In x others -> forall r, x <> CRec r)
            /\ (limit = JUndef ->
                Query.get_where where_ limit c
                = Query.Items (rhits ++ others)%list)
            /\ (forall k, (2 <= k)%nat -> limit = JNum (Num (Z.of_nat k)) ->
                Query.get_where where_ limit c
                = Query.Items (firstn k (rhits ++ others)%list))
            /\ (limit = JNum (Num 1) ->
                Query.get_where where_ limit c
                = Query.Item (hd_error (rhits ++ others)%list)))
      /\ (forall k, (2 <= k <= List.length rhits)%nat ->
          limit = JNum (Num (Z.of_nat k)) ->
          Query.get_where where_ limit c = Query.Items (firstn k rhits))
      /\ (rhits <> [] -> limit = JNum (Num 1) ->
          Query.get_where where_ limit c = Query.Item (hd_error rhits))).
Proof.
  assert (I0 : forall w : object,
             incl (Object.keys (@nil (string * bool))) (Object.keys w))
    by (intros w k []).
  split; [|split].
  - intros T. unfold Query.get_where.
    destruct (String.eqb_spec (Js.typeof_arg where_) "object"); [contradiction|].
    reflexivity.
  - intros w _ r Hin. unfold Query.get_where; simpl.
    rewrite obj_props_unlimited by (auto; intros n; reflexivity). simpl.
    rewrite filter_In, in_own_values_record, matches_satisfies. tauto.
  - intros w W _ rhits.
    set (others := List.filter (matches w)
                     (map (fun kv => CNamed (snd kv)) (fields c))).
    assert (F : List.filter (matches w) (own_values c) = (rhits ++ others)%list)
      by apply filter_own_values.
    assert (G : Query.get_where where_ limit c =
                let matched := Query.obj_props w limit (own_values c) [] [] in
                if Js.strict_eq limit (JNum (Num 1)) then Query.Item (hd_error matched)
                else Query.Items matched).
    { unfold Query.get_where.
      destruct where_ as [[]|o]; simpl in *; try discriminate;
        inversion W; subst; reflexivity. }
    assert (L2 : forall k, (2 <= k)%nat -> limit = JNum (Num (Z.of_nat k)) ->
                 Query.get_where where_ limit c
                 = Query.Items (firstn k (rhits ++ others)%list)).
    { intros k Hk ->. rewrite G; simpl.
      replace (Z.of_nat k =? 1)%Z with false by (symmetry; apply Z.eqb_neq; lia).
      rewrite obj_props_limited by (auto; simpl; lia).
      simpl. now rewrite Nat.sub_0_r, F. }
    assert (L1 : limit = JNum (Num 1) ->
                 Query.get_where where_ limit c
                 = Query.Item (hd_error (rhits ++ others)%list)).
    { intros ->. rewrite G; simpl.
      change (JNum (Num 1)) with (JNum (Num (Z.of_nat 1))).
      rewrite obj_props_limited by (auto; simpl; lia).
      simpl. rewrite F.
      destruct (rhits ++ others)%list; reflexivity. }
    split; [|split; [|split]].
    + intros r. apply in_record_hits.
    + exists others. split; [|split; [|split]].
      * intros x Hin. now apply (filter_named_no_record w c).
      * intros ->. rewrite G; simpl.
        now rewrite obj_props_unlimited, F by (auto; intros n; reflexivity).
      * exact L2.
      * exact L1.
    + intros k [Hk Hl] E. rewrite (L2 k Hk E). f_equal.
      rewrite firstn_app.
      replace (k - List.length rhits)%nat with 0%nat by lia.
      simpl. now rewrite app_nil_r.
    + intros Hne E. rewrite (L1 E). f_equal.
      destruct rhits; [congruence|reflexivity].
Qed.

End Where_facts.

(** On the sample store, three records have [a] equal to 1 and a limit of
    2 keeps two of them: the third satisfies the clause and is not
    returned. *)
Lemma get_where_limit_drops_a_match :
  ~ holds_exactly_the_matching sample_store [("a", JNum (Num 1))] (JNum (Num 2)).
Proof.
  intros A.
  specialize (A [("id", JNum (Num 7)); ("a", JNum (Num 1))]).
  destruct A as [_ A]; [simpl; tauto|].
  assert (S : satisfies [("a", JNum (Num 1))]
                (CRec [("id", JNum (Num 7)); ("a", JNum (Num 1))]))
    by (apply matches_satisfies; reflexivity).
  specialize (A S). vm_compute in A.
  destruct A as [A|[A|[]]]; discriminate.
Qed.

(** The queries of the specification's examples. *)
Lemma get_where_returns_first_matches_witness :
  Query.get_where (Obj [("id", JNum (Num 5))]) (JNum (Num 1)) sample_store
    = Query.Item (Some (CRec [("id", JStr "5"); ("a", JNum (Num 1))]))
  /\ Query.get_where (Obj [("a", JNum (Num 1))]) (JNum (Num 2)) sample_store
    = Query.Items [CRec [("id", JStr "5"); ("a", JNum (Num 1))];
                   CRec [("id", JNum (Num 6)); ("a", JNum (Num 1))]].
Proof.
  split.
  - destruct (get_where_returns_first_matches sample_store
                (Obj [("id", JNum (Num 5))]) (JNum (Num 1))) as (_ & _ & A).
    destruct (A _ eq_refl eq_refl) as (_ & _ & _ & B).
    rewrite B; [reflexivity|discriminate|reflexivity].
  - destruct (get_where_returns_first_matches sample_store
                (Obj [("a", JNum (Num 1))]) (JNum (Num 2))) as (_ & _ & A).
    destruct (A _ eq_refl eq_refl) as (_ & _ & B & _).
    rewrite (B 2%nat); [reflexivity|simpl; lia|reflexivity].
Defined.

(** ** The shape of a call *)

Lemma tuned_same (w : world) : tuned (params_of w) w = w.
Proof. destruct w as [[] ? ? ?]; reflexivity. Qed.

Section Shapes.
Context `{Host}.

(** A call that is neither [init] nor one that empties the instance
    changes the parameters at most, and may end with a fetch. *)
Lemma call_shape (e : event) (w : world) :
  match e with
  | Call_param _ _ | Call_filter _ _ | Call_sort _ | Call_search _
  | Call_next _ | Call_prev _ | Call_page _ _ => True
  | _ => False
  end ->
  exists ps,
    step e w = tuned ps w
    \/ step e w = world_after (CD_Model.fetch (tuned ps w)).
Proof.
  destruct e; intros []; simpl.
  - (* param *)
    unfold CD_Model.param.
    destruct (CD_Model.defined name && Js.truthy v);
      [|destruct (CD_Model.defined name)];
      try (eexists; left; reflexivity).
    exists (params_of w). left. now rewrite tuned_same.
  - (* filter *)
    unfold CD_Model.filter, bind.
    destruct (CD_Model.defined field && Js.truthy v);
      [|destruct (CD_Model.defined field)]; simpl;
      rewrite fetched_after;
      try (eexists; right; reflexivity).
    exists (params_of w). right. now rewrite tuned_same.
  - (* sort *)
    unfold CD_Model.sort, bind.
    destruct (CD_Model.defined v); simpl; rewrite fetched_after;
      eexists; right; reflexivity.
  - (* search *)
    unfold CD_Model.search, bind.
    destruct (CD_Model.defined v); simpl; rewrite fetched_after;
      eexists; right; reflexivity.
  - (* next *)
    unfold CD_Model.next, CD_Model.take_count, bind, gets, when.
    destruct (Object.has (params_of w) "limit"); simpl;
      [|exists (params_of w); left; now rewrite tuned_same].
    destruct (CD_Model.defined count); simpl;
      match goal with
      | |- context [Object.has ?p "offset"] => destruct (Object.has p "offset")
      end; simpl; rewrite fetched_after; eexists; right; reflexivity.
  - (* prev *)
    unfold CD_Model.prev, CD_Model.take_count, bind, gets, when.
    destruct (Object.has (params_of w) "limit"); simpl;
      [|exists (params_of w); left; now rewrite tuned_same].
    destruct (CD_Model.defined count); simpl;
      match goal with
      | |- context [Object.has ?p "offset"] => destruct (Object.has p "offset")
      end; simpl; rewrite fetched_after; eexists; right; reflexivity.
  - (* page *)
    unfold CD_Model.page, CD_Model.take_count, bind, gets, when.
    destruct (Object.has (params_of w) "limit"); simpl;
      [|exists (params_of w); left; now rewrite tuned_same].
    destruct (CD_Model.defined count); simpl;
      match goal with
      | |- context [Object.has ?p "offset"] => destruct (Object.has p "offset")
      end; simpl; rewrite fetched_after; eexists; right; reflexivity.
Qed.

End Shapes.

(** ** What a request that went out leaves behind *)

Section Sent_facts.
Context `{Host}.


Lemma sent_field_other (w : world) (k : string) :
  k <> "_last_request" -> CD_Model.this_field k (sent w) = CD_Model.this_field k w.
Proof.
  intros Hne. unfold CD_Model.this_field, sent; simpl.
  destruct (CD_Model.this_last_request w) as [[| |]| |]; simpl;
    try reflexivity; apply get_set_other; congruence.
Qed.

Lemma sent_retained (w : world) :
  retains w = true ->
  CD_Model.this_last_request (sent w) = LXhr (List.length (net w)).
Proof.
  unfold retains. intros R. unfold CD_Model.this_last_request at 1.
  unfold sent; simpl.
  destruct (CD_Model.this_last_request w) as [[| |]| |]; try discriminate;
    simpl; now rewrite get_set_same.
Qed.


Lemma fetch_field_other (w : world) (k : string) :
  k <> "_last_request" ->
  CD_Model.this_field k (world_after (CD_Model.fetch w)) = CD_Model.this_field k w.
Proof.
  intros Hne. rewrite fetch_after.
  destruct (endpoint_set w && abortable w); [now apply sent_field_other|reflexivity].
Qed.

Lemma CD_Model_call_spec (x : rvalue) (c : collection) :
  CD_Model_call x c
  = {| records := (records c ++ records_of x)%list; fields := fields c |}.
Proof.
  destruct x as [v|items]; simpl.
  - rewrite app_nil_r. now destruct c.
  - revert c. induction items as [|kv t IH]; intros c; simpl.
    + rewrite app_nil_r. now destruct c.
    + rewrite IH. unfold push; simpl. now rewrite <- app_assoc.
Qed.


Lemma settle_ok_fields (id : nat) (resp : response) (w : world) :
  fields (self (Transport.settle_ok id resp w)) = fields (self w).
Proof.
  unfold Transport.settle_ok.
  destruct (nth_error (net w) id) as [r|]; [|reflexivity].
  destruct (is_pending r); [|reflexivity].
  destruct (r_load r); [|reflexivity].
  simpl. now rewrite CD_Model_call_spec.
Qed.

End Sent_facts.

(** ** [init] is memoized until the instance is emptied *)

Section Init_facts.
Context `{Host}.

Lemma initialised_init (id : nat) (p : jsarg) (w : world) :
  initialised id w -> CD_Model.init p w = Returns (OfRequest id) w.
Proof.
  intros [(x & A & T) I]. unfold CD_Model.init, bind, gets, when.
  rewrite A, T; simpl. unfold ret. now rewrite I.
Qed.

Lemma init_initialises (p : jsarg) (w w1 : world) (id : nat) :
  CD_Model.init p w = Returns (OfRequest id) w1 -> initialised id w1.
Proof.
  unfold CD_Model.init, bind at 1, gets at 1, when.
  destruct (CD_Model.this_field "_init_ajax" w) as [x|] eqn:A;
    [destruct (named_truthy x) eqn:T|]; simpl.
  - unfold bind, ret, gets.
    destruct (CD_Model.this_field "_init" w) as [[b|[|id']]|] eqn:I;
      try discriminate.
    intros E; inversion E; subst. split; eauto.
  - unfold bind at 1. unfold bind at 1.
    destruct p as [v|o]; unfold bind, ret, modify; simpl;
      rewrite fetch_spec;
      match goal with
      | |- context [negb (endpoint_set ?w0)] =>
          destruct (endpoint_set w0); simpl; try discriminate;
          destruct (abortable w0); simpl; try discriminate
      end;
      unfold set_field, modify, gets, CD_Model.this_field; simpl;
      rewrite get_set_other, get_set_same by discriminate;
      intros E; inversion E; subst;
      (split; [eexists; split; [apply get_set_same|reflexivity]|]);
      unfold CD_Model.this_field; simpl;
      now rewrite get_set_other, get_set_same by discriminate.
  - unfold bind at 1. unfold bind at 1.
    destruct p as [v|o]; unfold bind, ret, modify; simpl;
      rewrite fetch_spec;
      match goal with
      | |- context [negb (endpoint_set ?w0)] =>
          destruct (endpoint_set w0); simpl; try discriminate;
          destruct (abortable w0); simpl; try discriminate
      end;
      unfold set_field, modify, gets, CD_Model.this_field; simpl;
      rewrite get_set_other, get_set_same by discriminate;
      intros E; inversion E; subst;
      (split; [eexists; split; [apply get_set_same|reflexivity]|]);
      unfold CD_Model.this_field; simpl;
      now rewrite get_set_other, get_set_same by discriminate.
Qed.

Lemma initialised_step (id : nat) (e : event) (w : world) :
  emptying e = false -> initialised id w -> initialised id (step e w).
Proof.
  intros E Hi.
  assert (K : forall w',
             CD_Model.this_field "_init_ajax" w' = CD_Model.this_field "_init_ajax" w ->
             CD_Model.this_field "_init" w' = CD_Model.this_field "_init" w ->
             initialised id w').
  { intros w' A B. unfold initialised. now rewrite A, B. }
  assert (S : forall e0,
             match e0 with
             | Call_param _ _ | Call_filter _ _ | Call_sort _ | Call_search _
             | Call_next _ | Call_prev _ | Call_page _ _ => True
             | _ => False
             end -> initialised id (step e0 w)).
  { intros e0 C. destruct (call_shape e0 w C) as [ps [-> | ->]].
    - apply K; reflexivity.
    - apply K; rewrite fetch_field_other by discriminate; reflexivity. }
  destruct e; try discriminate; try (apply S; exact Logic.I).
  - simpl. now rewrite (initialised_init id params w Hi).
  - apply K; unfold CD_Model.this_field; cbn [step];
      now rewrite settle_ok_fields.
  - apply K; reflexivity.
Qed.

Lemma initialised_run (id : nat) (history : list event) (w : world) :
  forallb (fun e => negb (emptying e)) history = true ->
  initialised id w -> initialised id (run history w).
Proof.
  revert w; induction history as [|e t IH]; intros w E I; simpl in *; [exact I|].
  apply andb_true_iff in E. destruct E as [E1 E2].
  apply IH; [exact E2|]. apply initialised_step; [|exact I].
  now destruct (emptying e).
Qed.

(** C7, as the code has it: once a call of [init] has handed back the
    request [id], every later call of [init], whatever its parameters and
    whatever was called or answered in between, hands back that same
    request and leaves the world as it is, so nothing more is sent, as long
    as neither [empty()] nor [replace()] was called in between. *)
Theorem init_is_memoized (w w1 : world) (p1 p2 : jsarg) (id : nat)
  (history : list event) :
  CD_Model.init p1 w = Returns (OfRequest id) w1 ->
  forallb (fun e => negb (emptying e)) history = true ->
  init_memoized id history p2 w1.
Proof.
  intros I E. unfold init_memoized.
  apply initialised_init, initialised_run; [exact E|].
  exact (init_initialises p1 w w1 id I).
Qed.

End Init_facts.

Lemma init_is_memoized_witness :
  init_memoized 0
    [Call_filter (JStr "status") (JStr "active"); Net_ok 0 (response_with 2)]
    (Obj [("limit", JNum (Num 5))])
    (step (Call_init (Prim JUndef)) (users_world [] R_true)).
Proof.
  apply (init_is_memoized (users_world [] R_true) _ (Prim JUndef) _ 0);
    reflexivity.
Defined.

(** [init(); empty(); init()]: the second call of [init] sends request 1
    instead of handing back request 0. *)
Lemma init_after_empty_sends_again :
  CD_Model.init (Prim JUndef) (users_world [] R_false)
    = Returns (OfRequest 0) (step (Call_init (Prim JUndef)) (users_world [] R_false))
  /\ ~ init_memoized 0 [Call_empty] (Prim JUndef)
         (step (Call_init (Prim JUndef)) (users_world [] R_false)).
Proof.
  split; [reflexivity|].
  unfold init_memoized. intros A. vm_compute in A. discriminate.
Qed.

(** ** What [init] does to the world *)

Section Init_shape.
Context `{Host}.

Lemma init_after (p : jsarg) (w : world) :
  step (Call_init p) w =
    if match CD_Model.this_field "_init_ajax" w with
       | Some x => named_truthy x
       | None => false
       end
    then w
    else
      let w1 := tuned (init_params p (params_of w)) w in
      if ready w1 then remember_init (List.length (net w)) (sent w1) else w1.
Proof.
  cbn [step]. unfold CD_Model.init, bind at 1, gets at 1, when.
  destruct (match CD_Model.this_field "_init_ajax" w with
            | Some x => named_truthy x
            | None => false
            end) eqn:A; simpl.
  - unfold bind, ret, gets.
    destruct (CD_Model.this_field "_init" w) as [[b|[|id']]|]; reflexivity.
  - assert (Ee : forall f, endpoint_set (with_settings (with_params f) w)
                           = endpoint_set w) by reflexivity.
    assert (Ea : forall f, abortable (with_settings (with_params f) w)
                           = abortable w) by reflexivity.
    destruct p as [v|o]; cbn [init_params]; rewrite ?tuned_same;
      unfold bind, ret, modify, tuned; simpl; rewrite fetch_spec; unfold ready;
      rewrite ?Ee, ?Ea;
      (destruct (endpoint_set w); simpl; [|reflexivity]);
      (destruct (abortable w); simpl; [|reflexivity]);
      unfold set_field, modify, gets, CD_Model.this_field; simpl;
      rewrite get_set_other, get_set_same by discriminate; reflexivity.
Qed.



End Init_shape.

(** ** The parameter mutators *)

Section Mutator_facts.
Context `{Host}.



End Mutator_facts.



(** ** Failures and successes *)

Section Failure_facts.
Context `{Host}.


Lemma settle_ok_records (id : nat) (resp : response) (w : world) :
  records (self (Transport.settle_ok id resp w))
  = (records (self w) ++ if delivers id w then loaded resp w else [])%list.
Proof.
  unfold Transport.settle_ok, delivers.
  destruct (nth_error (net w) id) as [r|]; [|now rewrite app_nil_r].
  destruct (is_pending r); simpl; [|now rewrite app_nil_r].
  destruct (r_load r); simpl; [|now rewrite app_nil_r].
  now rewrite CD_Model_call_spec.
Qed.


End Failure_facts.



(** ** Supersession *)

Section Supersession_facts.
Context `{Host}.

Lemma settle_ok_not_pending (id : nat) (resp : response) (w : world) (r : request) :
  nth_error (net w) id = Some r -> is_pending r = false ->
  Transport.settle_ok id resp w = w.
Proof. intros N P. unfold Transport.settle_ok. now rewrite N, P. Qed.

Lemma settle_ok_nth_other (id j : nat) (resp : response) (w : world) :
  id <> j ->
  nth_error (net (Transport.settle_ok id resp w)) j = nth_error (net w) j.
Proof.
  intros Hne. unfold Transport.settle_ok.
  destruct (nth_error (net w) id) as [r|]; [|reflexivity].
  destruct (is_pending r); [|reflexivity].
  destruct (r_load r); simpl; now apply update_request_nth_other.
Qed.

Lemma before_send_length (w : world) :
  List.length (before_send w) = List.length (net w).
Proof.
  unfold before_send. destruct (CD_Model.this_last_request w);
    rewrite ?abort_length; reflexivity.
Qed.

(** A refreshing call that sends a request leaves the world of a fetch,
    with the bookkeeping of [init] on top when the call was [init]. *)
Lemma dispatch_shape (e : event) (w : world) :
  refreshing e = true -> dispatches e w ->
  exists ps,
    step e w = sent (tuned ps w)
    \/ step e w = remember_init (List.length (net w)) (sent (tuned ps w)).
Proof.
  unfold dispatches. intros R D.
  assert (S : forall e0,
             match e0 with
             | Call_param _ _ | Call_filter _ _ | Call_sort _ | Call_search _
             | Call_next _ | Call_prev _ | Call_page _ _ => True
             | _ => False
             end ->
             List.length (net (step e0 w)) = S (List.length (net w)) ->
             exists ps,
               step e0 w = sent (tuned ps w)
               \/ step e0 w = remember_init (List.length (net w)) (sent (tuned ps w))).
  { intros e0 C D0. destruct (call_shape e0 w C) as [ps [E | E]].
    - rewrite E in D0. simpl in D0. lia.
    - rewrite fetch_after in E.
      destruct (endpoint_set (tuned ps w) && abortable (tuned ps w)).
      + exists ps. now left.
      + rewrite E in D0. simpl in D0. lia. }
  destruct e; try discriminate; try (apply S; [exact Logic.I | exact D]).
  rewrite init_after in D |- *.
  destruct (match CD_Model.this_field "_init_ajax" w with
            | Some x => named_truthy x
            | None => false
            end); [lia|].
  cbv zeta in D |- *.
  destruct (ready (tuned (init_params params (params_of w)) w)).
  - eexists. right. reflexivity.
  - simpl in D. lia.
Qed.

Lemma went_out_net (w w1 : world) (ps : object) :
  w1 = sent (tuned ps w)
  \/ w1 = remember_init (List.length (net w)) (sent (tuned ps w)) ->
  net w1 = (before_send w ++ [get_request (tuned ps w)])%list
  /\ records (self w1) = records (self w)
  /\ s_attribute (settings_of w1) = s_attribute (settings_of w)
  /\ (retains w = true ->
      CD_Model.this_last_request w1 = LXhr (List.length (net w))).
Proof.
  intros [-> | ->].
  - split; [reflexivity|]. split; [exact (sent_records (tuned ps w))|].
    split; [reflexivity|]. intros R. exact (sent_retained (tuned ps w) R).
  - split; [reflexivity|]. split; [exact (sent_records (tuned ps w))|].
    split; [reflexivity|]. intros R.
    pose proof (sent_retained (tuned ps w) R) as L.
    unfold CD_Model.this_last_request in *. simpl in *.
    rewrite !get_set_other by discriminate. exact L.
Qed.

(** C1, as the code has it: on an instance whose [_last_request] is not
    [false], when two calls among [init], [filter], [sort], [search],
    [next], [prev] and [page] each send a request, one right after the
    other, the first request is aborted before the second goes out, and in
    whichever order the network answers them the store ends as it was before
    the calls followed by the records of the second response alone, for a
    second response none of whose payloads has a property named [length]
    (on such a payload the loading handler throws). *)
Theorem second_fetch_aborts_first (w : world) (e1 e2 : event) :
  retains w = true ->
  refreshing e1 = true ->
  refreshing e2 = true ->
  second_fetch_wins w e1 e2.
Proof.
  intros R R1 R2. unfold second_fetch_wins. intros D1 D2.
  destruct (dispatch_shape e1 w R1 D1) as [ps1 S1].
  destruct (went_out_net w _ ps1 S1) as (N1 & Rec1 & A1 & L1).
  specialize (L1 R).
  destruct (dispatch_shape e2 _ R2 D2) as [ps2 S2].
  destruct (went_out_net _ _ ps2 S2) as (N2 & Rec2 & A2 & _).
  set (w1 := step e1 w) in *. set (w2 := step e2 w1) in *.
  set (a := List.length (net w)) in *.
  set (r1 := get_request (tuned ps1 w)) in *.
  set (r2 := get_request (tuned ps2 w1)) in *.
  assert (La : List.length (before_send w) = a) by apply before_send_length.
  assert (B : before_send w1
              = (before_send w ++ [with_state (Failed "abort") r1])%list).
  { unfold before_send at 1. rewrite L1, N1. unfold Transport.abort.
    rewrite <- La. now rewrite update_request_last. }
  assert (Lb : List.length (net w1) = S a).
  { rewrite N1, length_app; simpl. lia. }
  assert (Na : nth_error (net w2) a = Some (with_state (Failed "abort") r1)).
  { rewrite N2, B, <- app_assoc. rewrite nth_error_app2 by lia.
    now replace (a - List.length (before_send w))%nat with 0%nat by lia. }
  assert (Nb : nth_error (net w2) (List.length (net w1)) = Some r2).
  { rewrite N2. rewrite nth_error_app2; rewrite B, length_app; simpl; try lia.
    now replace (List.length (net w1)
                 - (List.length (before_send w) + 1))%nat with 0%nat by lia. }
  split; [|split].
  - unfold state_of. now rewrite Na.
  - exists r2. split; [|reflexivity].
    rewrite N2. unfold before_send. now rewrite L1.
  - intros ra rb _. cbn [run fold_left step].
    assert (Db : delivers (List.length (net w1)) w2 = true)
      by (unfold delivers; now rewrite Nb).
    split.
    + rewrite (settle_ok_not_pending a ra w2 _ Na eq_refl).
      rewrite settle_ok_records, Db. now rewrite Rec2, Rec1.
    + rewrite (settle_ok_not_pending a ra _ (with_state (Failed "abort") r1)).
      * rewrite settle_ok_records, Db. now rewrite Rec2, Rec1.
      * rewrite settle_ok_nth_other by lia. exact Na.
      * reflexivity.
Qed.

End Supersession_facts.

Lemma second_fetch_aborts_first_witness :
  second_fetch_wins (users_world [("limit", JNum (Num 10))] R_true)
    (Call_filter (JStr "status") (JStr "active")) (Call_next JUndef)
  /\ dispatches (Call_filter (JStr "status") (JStr "active"))
       (users_world [("limit", JNum (Num 10))] R_true)
  /\ dispatches (Call_next JUndef)
       (step (Call_filter (JStr "status") (JStr "active"))
          (users_world [("limit", JNum (Num 10))] R_true))
  /\ plain_response (response_with 3)
       (users_world [("limit", JNum (Num 10))] R_true) = true.
Proof.
  split; [|split; [|split]; reflexivity].
  apply (second_fetch_aborts_first
           (users_world [("limit", JNum (Num 10))] R_true)
           (Call_filter (JStr "status") (JStr "active")) (Call_next JUndef));
    reflexivity.
Defined.

(** On an instance as shipped ([_last_request] is [false]) two calls of
    [filter] in a row leave the first request pending, and the records of
    both responses reach the store.  On an instance that opted in,
    [replace] as the second call deletes the retained jqXHR with the other
    own properties before its request goes out, so the first request is not
    aborted either. *)
Lemma second_fetch_does_not_always_win :
  ~ second_fetch_wins (users_world [] R_false)
      (Call_filter (JStr "status") (JStr "active"))
      (Call_filter (JStr "status") (JStr "closed"))
  /\ records (self (run [Call_filter (JStr "status") (JStr "active");
                         Call_filter (JStr "status") (JStr "closed");
                         Net_ok 0 (response_with 2);
                         Net_ok 1 (response_with 3)]
                        (users_world [] R_false)))
     = [ [("id", JNum (Num 1))]; [("id", JNum (Num 2))]; [("id", JNum (Num 3))] ]
  /\ ~ second_fetch_wins (users_world [] R_true)
      (Call_filter (JStr "status") (JStr "active"))
      (Call_replace None).
Proof.
  split; [|split; [reflexivity|]];
    intros A; destruct (A eq_refl eq_refl) as [B _];
    vm_compute in B; discriminate.
Qed.

(** * Further properties of the code *)

(** ** Strings and objects with distinct names *)




Section Distinct_names.
Context {V : Type}.
Implicit Types (o : list (string * V)) (k : string) (v : V).

Lemma get_not_in_keys o k : ~ In k (Object.keys o) -> Object.get o k = None.
Proof.
  intros N. destruct (Object.get o k) eqn:G; [|reflexivity].
  exfalso. eauto using get_in_keys.
Qed.

Lemma get_app o1 o2 k :
  Object.get (o1 ++ o2)%list k =
    match Object.get o1 k with
    | Some v => Some v
    | None => Object.get o2 k
    end.
Proof.
  induction o1 as [|[k' v'] t IH]; simpl; [reflexivity|].
  destruct (String.eqb k k'); auto.
Qed.

(** In an object with distinct names, a pair is what a lookup finds. *)
Lemma get_of_pair o1 o2 k v :
  NoDup (Object.keys (o1 ++ (k, v) :: o2)%list) ->
  Object.get (o1 ++ (k, v) :: o2)%list k = Some v.
Proof.
  intros N. rewrite get_app. unfold Object.keys in N. rewrite map_app in N.
  apply NoDup_remove_2 in N. rewrite get_not_in_keys.
  - simpl. now rewrite String.eqb_refl.
  - intros Hin. apply N. apply in_or_app. now left.
Qed.

Lemma set_not_in_keys o k v :
  ~ In k (Object.keys o) -> Object.set o k v = (o ++ [(k, v)])%list.
Proof.
  induction o as [|[k' v'] t IH]; simpl; intros N; [reflexivity|].
  destruct (String.eqb_spec k k') as [->|Hne]; [tauto|].
  rewrite IH; tauto.
Qed.

Lemma set_set o k v v' : Object.set (Object.set o k v) k v' = Object.set o k v'.
Proof.
  induction o as [|[k' v0] t IH]; simpl.
  - now rewrite String.eqb_refl.
  - destruct (String.eqb k k') eqn:E; simpl; rewrite E; [reflexivity|].
    now rewrite IH.
Qed.

Lemma set_same o k v : Object.get o k = Some v -> Object.set o k v = o.
Proof.
  induction o as [|[k' v0] t IH]; simpl; [discriminate|].
  destruct (String.eqb_spec k k') as [->|Hne].
  - now intros [= ->].
  - intros G. now rewrite IH.
Qed.

End Distinct_names.

(** ** The query string *)

Section Query_facts.



End Query_facts.




(** ** The endpoint and its trailing slashes *)








(** ** [url()] against the request of a fetch *)

Lemma copy_steps (ps done rest : object) :
  ps = (done ++ rest)%list ->
  NoDup (Object.keys ps) ->
  all_defined ps ->
  fold_left (Object.extend_step ps) (Object.keys rest) done = ps.
Proof.
  revert done. induction rest as [|[k v] t IH]; intros done E N D; simpl.
  - subst ps. now rewrite app_nil_r.
  - assert (R : Object.read ps k = v).
    { unfold Object.read. subst ps. now rewrite get_of_pair. }
    assert (U : Object.is_undefined v = false).
    { assert (v <> JUndef) by (apply (D k); subst ps; apply in_or_app; simpl; auto).
      destruct v; simpl; congruence. }
    unfold Object.extend_step at 2. rewrite R, U.
    rewrite set_not_in_keys.
    + apply IH; try assumption. now rewrite <- app_assoc.
    + subst ps. unfold Object.keys in N. rewrite map_app in N.
      apply NoDup_remove_2 in N. intros Hin. apply N. apply in_or_app. now left.
Qed.

Lemma copy_distinct (ps : object) :
  NoDup (Object.keys ps) -> all_defined ps -> Object.copy ps = ps.
Proof. intros N D. exact (copy_steps ps [] ps eq_refl N D). Qed.

Section Url_facts.
Context `{Host}.

(** X3: when a refreshing call has sent a request and the parameters it
    leaves have distinct names and no [undefined] value, [url()] called next
    returns exactly the URL of that request. *)
Theorem url_is_the_request_sent (e : event) (w : world) :
  refreshing e = true ->
  dispatches e w ->
  NoDup (Object.keys (params_of (step e w))) ->
  all_defined (params_of (step e w)) ->
  option_map r_url (nth_error (net (step e w)) (List.length (net w)))
  = Some (CD_Model.url (Prim JUndef) JUndef (step e w)).
Proof.
  intros R D N A.
  destruct (dispatch_shape e w R D) as [ps S].
  destruct (went_out_net w _ ps S) as (Hnet & _).
  rewrite Hnet, nth_error_app2 by (rewrite before_send_length; lia).
  rewrite before_send_length, Nat.sub_diag. simpl.
  assert (P : params_of (step e w) = ps) by (destruct S as [-> | ->]; reflexivity).
  rewrite P in N, A.
  assert (E : s_endpoint (settings_of (step e w)) = s_endpoint (settings_of w))
    by (destruct S as [-> | ->]; reflexivity).
  unfold CD_Model.url. rewrite P, E, (copy_distinct ps N A). reflexivity.
Qed.

End Url_facts.

Lemma url_is_the_request_sent_witness :
  option_map r_url
    (nth_error
       (net (step (Call_filter (JStr "status") (JStr "on hold"))
               (users_world [("limit", JNum (Num 10))] R_false))) 0)
  = Some "http://api/users/?limit=10&status=on%20hold&offset=0".
Proof.
  rewrite (url_is_the_request_sent
             (Call_filter (JStr "status") (JStr "on hold"))
             (users_world [("limit", JNum (Num 10))] R_false)
             eq_refl eq_refl).
  - reflexivity.
  - repeat constructor; simpl; intuition discriminate.
  - intros k v Hin. simpl in Hin.
    destruct Hin as [E|[E|[E|[]]]]; inversion E; discriminate.
Defined.

(** ** More of the pagination *)

Section Pagination_more.
Context `{Host}.

(** The parameters after [prev(count)], when a limit is there. *)
Lemma prev_params (count : value) (w : world) :
  Object.has (params_of w) "limit" = true ->
  params_of (world_after (CD_Model.prev count w)) =
    let ps1 := if CD_Model.defined count
               then Object.set (params_of w) "limit" (Js.plus count)
               else params_of w in
    let ps2 := if Object.has ps1 "offset" then ps1
               else Object.set ps1 "offset" (JNum (Num 0)) in
    Object.set ps2 "offset" (Js.sub (Object.read ps2 "offset") (Object.read ps2 "limit")).
Proof.
  intros L. unfold CD_Model.prev, CD_Model.take_count, bind, gets, when.
  rewrite L; simpl.
  destruct (CD_Model.defined count); simpl;
    match goal with
    | |- context [Object.has ?p "offset"] => destruct (Object.has p "offset") eqn:O
    end; simpl; unfold params_of at 1; rewrite fetched_after, fetch_settings;
    unfold params_of in *; simpl in *; rewrite ?O; reflexivity.
Qed.

(** X4: with an offset [o] and a limit [l] in the parameters, both
    integers of the safe range and their sum too, [next()] followed by
    [prev()] leaves [settings.params] exactly as it was, whether or not the
    two requests could be sent. *)
Theorem next_then_prev_restores_params (w : world) (o l : Z) :
  safe_integer o = true ->
  safe_integer l = true ->
  safe_integer (o + l) = true ->
  Object.get (params_of w) "offset" = Some (JNum (Num o)) ->
  Object.get (params_of w) "limit" = Some (JNum (Num l)) ->
  params_of (run [Call_next JUndef; Call_prev JUndef] w) = params_of w.
Proof.
  intros _ _ _ O L. cbn [run fold_left step].
  assert (P1 : params_of (world_after (CD_Model.next JUndef w))
               = Object.set (params_of w) "offset" (JNum (Num (o + l)))).
  { rewrite next_params by eauto using get_has. simpl.
    rewrite (get_has _ _ _ O), (get_read _ _ _ O), (get_read _ _ _ L).
    reflexivity. }
  rewrite prev_params; rewrite P1.
  - simpl. rewrite has_set_same, read_set_same.
    rewrite read_set_other, (get_read _ _ _ L) by discriminate. simpl.
    rewrite set_set. unfold Js.sub; simpl.
    replace (o + l - l)%Z with o by lia.
    now apply set_same.
  - unfold Object.has. now rewrite get_set_other, L by discriminate.
Qed.

(** X5: [prev] does not clamp.  With a numeric offset [o] in the
    parameters and a limit [lim] in force (the numeric limit of the
    parameters, or a numeric [count] other than 0), [prev] moves the offset
    to [o - lim], below 0 when [lim] exceeds [o], and [url_prev] builds the
    URL of that same offset. *)
Theorem prev_url_prev_agree (w : world) (count : value) (o l lim : Z) :
  Object.get (params_of w) "offset" = Some (JNum (Num o)) ->
  Object.get (params_of w) "limit" = Some (JNum (Num l)) ->
  (count = JUndef /\ lim = l) \/ count = JNum (Num lim) ->
  lim <> 0%Z ->
  Object.read (params_of (world_after (CD_Model.prev count w))) "offset"
    = JNum (Num (o - lim))
  /\ exists ps,
       CD_Model.url_prev_params count w = Some ps
       /\ Object.read ps "offset" = JNum (Num (o - lim)).
Proof.
  intros O L C Hnz.
  assert (Z0 : Z.eqb lim 0 = false) by now apply Z.eqb_neq.
  split.
  - rewrite prev_params by eauto using get_has.
    destruct C as [[-> ->] | ->]; simpl.
    + rewrite (get_has _ _ _ O), read_set_same.
      now rewrite (get_read _ _ _ O), (get_read _ _ _ L).
    + unfold Object.has. rewrite get_set_other, O by discriminate.
      rewrite read_set_same, read_set_other, read_set_same by discriminate.
      now rewrite (get_read _ _ _ O).
  - unfold CD_Model.url_prev_params, Js.or_else.
    destruct C as [[-> ->] | ->]; simpl.
    + rewrite (get_read _ _ _ L); simpl. rewrite Z0; simpl.
      eexists; split; [reflexivity|].
      now rewrite read_set_same, read_copy, (get_read _ _ _ O).
    + rewrite Z0; simpl. rewrite Z0; simpl.
      eexists; split; [reflexivity|].
      now rewrite read_set_same, read_copy, (get_read _ _ _ O).
Qed.

(** X6: an offset kept as a string is not added to.  With the offset a
    string [s] and a numeric limit [l] other than 0, [next()] stores the
    string [s] followed by the digits of [l] (the [+=] concatenates),
    whereas [url_next()] reads the string as a number and adds [l]. *)
Theorem next_concatenates_string_offset (w : world) (s : string) (l : Z) :
  Object.get (params_of w) "offset" = Some (JStr s) ->
  Object.get (params_of w) "limit" = Some (JNum (Num l)) ->
  l <> 0%Z ->
  Object.read (params_of (world_after (CD_Model.next JUndef w))) "offset"
    = JStr (s ++ Js.NumberToString (Num l))
  /\ exists ps,
       CD_Model.url_next_params JUndef w = Some ps
       /\ Object.read ps "offset" = JNum (Js.num_add (StringToNumber s) (Num l)).
Proof.
  intros O L Hnz.
  assert (Z0 : Z.eqb l 0 = false) by now apply Z.eqb_neq.
  split.
  - rewrite next_params by eauto using get_has. simpl.
    rewrite (get_has _ _ _ O), read_set_same.
    now rewrite (get_read _ _ _ O), (get_read _ _ _ L).
  - unfold CD_Model.url_next_params, Js.or_else; simpl.
    rewrite (get_read _ _ _ L); simpl. rewrite Z0; simpl.
    eexists; split; [reflexivity|].
    now rewrite read_set_same, read_copy, (get_read _ _ _ O).
Qed.

(** X7: without a [limit] among the parameters, [next], [prev] and [page]
    hand back a promise that is already rejected with the reason
    [No limit defined in parameters], also when a [count] is given: the
    parameters are not touched and nothing is sent. *)
Theorem pagination_rejected_without_limit (w : world) (n count : value) :
  Object.has (params_of w) "limit" = false ->
  CD_Model.next count w = Returns (Rejected CD_Model.no_limit) w
  /\ CD_Model.prev count w = Returns (Rejected CD_Model.no_limit) w
  /\ CD_Model.page n count w = Returns (Rejected CD_Model.no_limit) w.
Proof.
  intros L.
  unfold CD_Model.next, CD_Model.prev, CD_Model.page, bind, gets.
  rewrite L. repeat split.
Qed.


(** X9: the first [init(params)] merges: a parameter of the settings is
    replaced when [params] gives it a value that is not [undefined], kept
    otherwise, and the names only [params] has are added. *)
Theorem init_merges_params (w : world) (o : object) (k : string) :
  CD_Model.this_field "_init_ajax" w = Some (NBool false)
  \/ CD_Model.this_field "_init_ajax" w = None ->
  Object.read (params_of (step (Call_init (Obj o)) w)) k
  = if in_dec string_dec k (Object.keys o) then
      if Object.is_undefined (Object.read o k) then Object.read (params_of w) k
      else Object.read o k
    else Object.read (params_of w) k.
Proof.
  intros F. rewrite init_after.
  assert (A : match CD_Model.this_field "_init_ajax" w with
              | Some x => named_truthy x
              | None => false
              end = false) by (destruct F as [-> | ->]; reflexivity).
  rewrite A. cbv zeta.
  assert (P : params_of
                (if ready (tuned (init_params (Obj o) (params_of w)) w)
                 then remember_init (List.length (net w))
                        (sent (tuned (init_params (Obj o) (params_of w)) w))
                 else tuned (init_params (Obj o) (params_of w)) w)
              = init_params (Obj o) (params_of w))
    by (destruct (ready _); reflexivity).
  rewrite P. cbn [init_params]. unfold Object.extend at 1.
  rewrite read_extend_keys.
  fold (Object.copy (params_of w)). now rewrite read_copy.
Qed.

End Pagination_more.

Lemma prev_url_prev_agree_witness :
  Object.read
    (params_of (world_after (CD_Model.prev JUndef
       (users_world [("limit", JNum (Num 10)); ("offset", JNum (Num 0))] R_false))))
    "offset" = JNum (Num (-10)).
Proof.
  destruct (prev_url_prev_agree
              (users_world [("limit", JNum (Num 10)); ("offset", JNum (Num 0))] R_false)
              JUndef 0 10 10 eq_refl eq_refl (or_introl (conj eq_refl eq_refl)))
    as [A _]; [discriminate|exact A].
Defined.


Lemma next_then_prev_restores_params_witness :
  params_of (run [Call_next JUndef; Call_prev JUndef]
               (users_world [("limit", JNum (Num 10)); ("offset", JNum (Num 30))] R_true))
  = [("limit", JNum (Num 10)); ("offset", JNum (Num 30))].
Proof.
  exact (next_then_prev_restores_params
           (users_world [("limit", JNum (Num 10)); ("offset", JNum (Num 30))] R_true)
           30 10 eq_refl eq_refl eq_refl eq_refl eq_refl).
Defined.

Lemma pagination_rejected_without_limit_witness :
  CD_Model.next (JNum (Num 10)) (users_world [("offset", JNum (Num 0))] R_false)
  = Returns (Rejected "No limit defined in parameters")
      (users_world [("offset", JNum (Num 0))] R_false).
Proof.
  destruct (pagination_rejected_without_limit
              (users_world [("offset", JNum (Num 0))] R_false)
              JUndef (JNum (Num 10)) eq_refl) as [A _].
  exact A.
Defined.

Lemma next_concatenates_string_offset_witness :
  Object.read
    (params_of (world_after (CD_Model.next JUndef
       (users_world [("limit", JNum (Num 10)); ("offset", JStr "20")] R_false))))
    "offset" = JStr "2010".
Proof.
  destruct (next_concatenates_string_offset
              (users_world [("limit", JNum (Num 10)); ("offset", JStr "20")] R_false)
              "20" 10 eq_refl eq_refl) as [A _]; [discriminate|exact A].
Defined.

Lemma init_merges_params_witness :
  Object.read
    (params_of (step (Call_init (Obj [("limit", JNum (Num 5)); ("q", JUndef)]))
       (users_world [("limit", JNum (Num 10)); ("q", JStr "jo")] R_false)))
    "limit" = JNum (Num 5).
Proof.
  rewrite (init_merges_params
             (users_world [("limit", JNum (Num 10)); ("q", JStr "jo")] R_false)
             [("limit", JNum (Num 5)); ("q", JUndef)] "limit" (or_introl eq_refl)).
  reflexivity.
Defined.

(** ** One request in flight *)

Lemma update_request_pending (id j : nat) (f : request -> request)
  (l : list request) (r : request) :
  (forall x, is_pending (f x) = false) ->
  nth_error (update_request id f l) j = Some r ->
  is_pending r = true ->
  nth_error l j = Some r /\ j <> id.
Proof.
  intros F N P. destruct (Nat.eq_dec id j) as [->|Hne].
  - rewrite update_request_nth in N.
    destruct (nth_error l j); simpl in N; [|discriminate].
    inversion N; subst. rewrite F in P. discriminate.
  - rewrite update_request_nth_other in N by assumption. auto.
Qed.

Lemma settled_not_pending (st : rstate) (x : request) :
  is_pending (if is_pending x then with_state st x else x)
  = match st with Pending => is_pending x | _ => false end.
Proof. destruct (is_pending x) eqn:P, st; simpl; auto. Qed.

Section Single_flight_facts.
Context `{Host}.

Lemma single_flight_sent (X : world) :
  retains X = true -> single_flight X ->
  retains (sent X) = true /\ single_flight (sent X).
Proof.
  intros R J.
  pose proof (sent_retained X R) as L.
  split; [unfold retains; now rewrite L|].
  intros id r N P. rewrite L.
  change (net (sent X)) with (before_send X ++ [get_request X])%list in N.
  destruct (Nat.lt_ge_cases id (List.length (net X))) as [Hlt|Hge].
  - exfalso. rewrite nth_error_app1 in N by (rewrite before_send_length; lia).
    unfold before_send in N.
    destruct (CD_Model.this_last_request X) as [p|prev|] eqn:T.
    + specialize (J id r N P). unfold single_flight in J. congruence.
    + unfold Transport.abort in N.
      apply update_request_pending in N; try assumption.
      * destruct N as [N Hne]. specialize (J id r N P). congruence.
      * intros x. now rewrite (settled_not_pending (Failed "abort")).
    + specialize (J id r N P). congruence.
  - destruct (Nat.eq_dec id (List.length (net X))) as [->|Hne]; [reflexivity|].
    exfalso.
    assert (B : id < List.length (before_send X ++ [get_request X])%list)
      by (apply nth_error_Some; congruence).
    rewrite length_app, before_send_length in B. simpl in B. lia.
Qed.

Lemma single_flight_same (w w' : world) :
  CD_Model.this_last_request w' = CD_Model.this_last_request w ->
  (forall id r, nth_error (net w') id = Some r -> is_pending r = true ->
                nth_error (net w) id = Some r) ->
  retains w = true /\ single_flight w ->
  retains w' = true /\ single_flight w'.
Proof.
  intros L N [R J]. split.
  - unfold retains. now rewrite L.
  - intros id r Hn P. rewrite L. exact (J id r (N id r Hn P) P).
Qed.

Lemma single_flight_step (e : event) (w : world) :
  emptying e = false ->
  retains w = true /\ single_flight w ->
  retains (step e w) = true /\ single_flight (step e w).
Proof.
  intros E I.
  assert (T : forall ps, retains (tuned ps w) = true /\ single_flight (tuned ps w))
    by (intros ps; apply (single_flight_same w); auto).
  assert (F : forall ps,
             retains (world_after (CD_Model.fetch (tuned ps w))) = true
             /\ single_flight (world_after (CD_Model.fetch (tuned ps w)))).
  { intros ps. rewrite fetch_after.
    destruct (endpoint_set (tuned ps w) && abortable (tuned ps w)); [|apply T].
    destruct (T ps). now apply single_flight_sent. }
  assert (S : forall e0,
             match e0 with
             | Call_param _ _ | Call_filter _ _ | Call_sort _ | Call_search _
             | Call_next _ | Call_prev _ | Call_page _ _ => True
             | _ => False
             end ->
             retains (step e0 w) = true /\ single_flight (step e0 w)).
  { intros e0 C. destruct (call_shape e0 w C) as [ps [-> | ->]]; auto. }
  destruct e; try discriminate; try (apply S; exact Logic.I).
  - rewrite init_after.
    destruct (match CD_Model.this_field "_init_ajax" w with
              | Some x => named_truthy x
              | None => false
              end); [exact I|].
    cbv zeta. destruct (ready _); [|apply T].
    apply (single_flight_same (sent (tuned (init_params params (params_of w)) w))).
    + unfold CD_Model.this_last_request; simpl.
      now rewrite !get_set_other by discriminate.
    + auto.
    + destruct (T (init_params params (params_of w))). now apply single_flight_sent.
  - apply (single_flight_same w); [| |exact I].
    + cbn [step]. unfold CD_Model.this_last_request.
      rewrite settle_ok_fields.
      replace (proto_last_request (Transport.settle_ok id resp w))
        with (proto_last_request w); [reflexivity|].
      unfold Transport.settle_ok.
      destruct (nth_error (net w) id) as [r0|]; [|reflexivity].
      destruct (is_pending r0); [|reflexivity].
      destruct (r_load r0); reflexivity.
    + intros j r N P. cbn [step] in N. unfold Transport.settle_ok in N.
      destruct (nth_error (net w) id) as [r0|]; [|exact N].
      destruct (is_pending r0); [|exact N].
      assert (N' : nth_error (update_request id (with_state (Succeeded resp)) (net w)) j
                   = Some r) by (destruct (r_load r0); exact N).
      apply update_request_pending in N'; tauto.
  - apply (single_flight_same w); [reflexivity| |exact I].
    intros j r N P. cbn [step] in N. unfold Transport.settle_fail in N. simpl in N.
    apply update_request_pending in N; try tauto.
    intros x. now rewrite (settled_not_pending (Failed reason)).
Qed.

(** X10: single flight.  On an instance that retains its requests, and on
    which every pending request is the retained one (none is pending at the
    start), this stays so through every history of calls and network
    answers without [empty()] and [replace()]; hence two requests are never
    pending at the same time. *)
Theorem one_request_in_flight (w : world) (history : list event) :
  retains w = true ->
  single_flight w ->
  forallb (fun e => negb (emptying e)) history = true ->
  single_flight (run history w)
  /\ forall i j ri rj,
       nth_error (net (run history w)) i = Some ri -> is_pending ri = true ->
       nth_error (net (run history w)) j = Some rj -> is_pending rj = true ->
       i = j.
Proof.
  intros R J E.
  assert (I : retains (run history w) = true /\ single_flight (run history w)).
  { revert w R J E. induction history as [|e t IH]; intros w R J E; simpl in *; [auto|].
    apply andb_true_iff in E. destruct E as [E1 E2].
    destruct (single_flight_step e w) as [R' J']; auto.
    now destruct (emptying e). }
  destruct I as [_ J']. split; [exact J'|].
  intros i j ri rj Ni Pi Nj Pj.
  pose proof (J' i ri Ni Pi) as A. pose proof (J' j rj Nj Pj) as B.
  congruence.
Qed.

End Single_flight_facts.

Lemma one_request_in_flight_witness :
  single_flight
    (run [Call_filter (JStr "a") (JStr "b"); Call_next JUndef;
          Net_ok 0 (response_with 2); Call_init (Prim JUndef)]
       (users_world [("limit", JNum (Num 10))] R_true)).
Proof.
  apply (one_request_in_flight (users_world [("limit", JNum (Num 10))] R_true)).
  - reflexivity.
  - intros id r N. destruct id; discriminate.
  - reflexivity.
Defined.

(** ** A request settles once *)

Lemma update_request_same (id : nat) (f : request -> request) (l : list request) :
  (forall r, nth_error l id = Some r -> f r = r) ->
  update_request id f l = l.
Proof.
  intros F. apply nth_error_ext. intros j.
  destruct (Nat.eq_dec id j) as [->|Hne].
  - rewrite update_request_nth.
    destruct (nth_error l j) as [r|] eqn:N; simpl; [|reflexivity].
    now rewrite (F r).
  - now apply update_request_nth_other.
Qed.

Lemma with_net_same (f : list request -> list request) (w : world) :
  f (net w) = net w -> with_net f w = w.
Proof. destruct w; unfold with_net; simpl. now intros ->. Qed.

Lemma settle_fail_not_pending (id : nat) (reason : string) (w : world) :
  (forall r, nth_error (net w) id = Some r -> is_pending r = false) ->
  Transport.settle_fail id reason w = w.
Proof.
  intros N. unfold Transport.settle_fail. apply with_net_same.
  apply update_request_same. intros r Hr. now rewrite (N r Hr).
Qed.

Lemma settle_ok_settled (id : nat) (resp : response) (w : world) :
  (forall r, nth_error (net w) id = Some r -> is_pending r = false) ->
  Transport.settle_ok id resp w = w.
Proof.
  intros N. unfold Transport.settle_ok.
  destruct (nth_error (net w) id) as [r|]; [|reflexivity].
  now rewrite (N r eq_refl).
Qed.

Lemma settle_ok_settles (id : nat) (resp : response) (w : world) (r : request) :
  nth_error (net (Transport.settle_ok id resp w)) id = Some r ->
  is_pending r = false.
Proof.
  unfold Transport.settle_ok.
  destruct (nth_error (net w) id) as [r0|] eqn:N; [|congruence].
  destruct (is_pending r0) eqn:P; [|congruence].
  intros E.
  assert (E' : nth_error (update_request id (with_state (Succeeded resp)) (net w)) id
               = Some r) by (destruct (r_load r0); exact E).
  rewrite update_request_nth, N in E'. simpl in E'. now inversion E'.
Qed.

Lemma settle_fail_settles (id : nat) (reason : string) (w : world) (r : request) :
  nth_error (net (Transport.settle_fail id reason w)) id = Some r ->
  is_pending r = false.
Proof.
  unfold Transport.settle_fail. simpl. rewrite update_request_nth.
  destruct (nth_error (net w) id) as [r0|]; simpl; [|discriminate].
  intros E. inversion E. now rewrite (settled_not_pending (Failed reason)).
Qed.

(** A request settles once.  After the network has answered request
    [id] or has failed it, any later answer or failure for the same request
    leaves the whole world as it is: no record is pushed a second time and
    the outcome of the request does not change. *)
Theorem request_settles_once
  (id : nat) (resp resp' : response) (reason reason' : string) (w : world) :
  Transport.settle_ok id resp' (Transport.settle_ok id resp w)
    = Transport.settle_ok id resp w
  /\ Transport.settle_fail id reason' (Transport.settle_ok id resp w)
    = Transport.settle_ok id resp w
  /\ Transport.settle_ok id resp' (Transport.settle_fail id reason w)
    = Transport.settle_fail id reason w
  /\ Transport.settle_fail id reason' (Transport.settle_fail id reason w)
    = Transport.settle_fail id reason w.
Proof.
  split; [|split; [|split]].
  - apply settle_ok_settled. intros r. apply settle_ok_settles.
  - apply settle_fail_not_pending. intros r. apply settle_ok_settles.
  - apply settle_ok_settled. intros r. apply settle_fail_settles.
  - apply settle_fail_not_pending. intros r. apply settle_fail_settles.
Qed.

(** ** The requests of the four verbs *)

Section Verb_facts.
Context `{Host}.



End Verb_facts.


(** ** [replace] *)

Section Replace_facts.
Context `{Host}.



End Replace_facts.


(** ** The constructor *)

Section Constructor_facts.
Context `{Host}.

Lemma constructed_ready (w : world) : ready (constructed w) = endpoint_set w.
Proof. unfold ready, abortable. simpl. apply andb_true_r. Qed.





End Constructor_facts.



(** ** Records and their payloads *)




(** ** Integers read back by [parseInt] *)

Ltac digit :=
  match goal with
  | |- context [Js.digit_of 10 ?c] =>
      let v := eval vm_compute in (Js.digit_of 10 c) in
      change (Js.digit_of 10 c) with v
  end.

Lemma read_digits_decimal (d : Decimal.uint) (a : Z) :
  Js.read_digits 10 (NilEmpty.string_of_uint d) (Some a) = Some (uint_val d a).
Proof.
  revert a. induction d; intros a;
    cbn [NilEmpty.string_of_uint Js.read_digits uint_val];
    [reflexivity | digit; apply IHd ..].
Qed.

Lemma read_digits_first (d : Decimal.uint) :
  d <> Decimal.Nil ->
  Js.read_digits 10 (NilEmpty.string_of_uint d) None = Some (uint_val d 0).
Proof.
  intros N. destruct d; [congruence| ..];
    cbn [NilEmpty.string_of_uint Js.read_digits uint_val];
    digit; apply read_digits_decimal.
Qed.

Lemma of_uint_acc_val (d : Decimal.uint) (acc : positive) :
  Z.pos (Pos.of_uint_acc d acc) = uint_val d (Z.pos acc).
Proof.
  revert acc. induction d; intros acc; cbn [Pos.of_uint_acc uint_val];
    [reflexivity | rewrite IHd; f_equal; lia ..].
Qed.

Lemma of_uint_val (d : Decimal.uint) : Z.of_N (Pos.of_uint d) = uint_val d 0.
Proof.
  induction d; cbn [Pos.of_uint uint_val]; [reflexivity | exact IHd | ..];
    cbn [Z.of_N]; rewrite of_uint_acc_val; reflexivity.
Qed.

Lemma to_uint_val (p : positive) : uint_val (Pos.to_uint p) 0 = Z.pos p.
Proof. now rewrite <- of_uint_val, DecimalPos.Unsigned.of_to. Qed.

Ltac parse_prefix R :=
  split; unfold Js.parseInt_string;
  cbn [NilEmpty.string_of_uint] in *;
  cbn [Js.skip_spaces];
  match goal with
  | |- context [Js.is_space ?c] =>
      let v := eval vm_compute in (Js.is_space c) in
      change (Js.is_space c) with v
  end;
  cbv iota; rewrite R; reflexivity.

Lemma parseInt_string_decimal (d : Decimal.uint) :
  d <> Decimal.Nil ->
  Js.parseInt_string (NilEmpty.string_of_uint d) = Num (1 * uint_val d 0)
  /\ Js.parseInt_string (String "-" (NilEmpty.string_of_uint d))
     = Num (-1 * uint_val d 0).
Proof.
  intros N. pose proof (read_digits_first d N) as R.
  destruct d as [|d|d|d|d|d|d|d|d|d|d]; [congruence| ..];
    try (parse_prefix R).
  destruct d; parse_prefix R.
Qed.

(** [parseInt] reads the decimal spelling of an integer back. *)
Lemma parseInt_NumberToString (z : Z) :
  Js.parseInt_string (Js.NumberToString (Num z)) = Num z.
Proof.
  unfold Js.NumberToString. destruct z as [|p|p]; [reflexivity| |];
    unfold Z.to_int, NilZero.string_of_int, NilZero.string_of_uint;
    pose proof (DecimalPos.Unsigned.to_uint_nonnil p) as N;
    destruct (parseInt_string_decimal (Pos.to_uint p) N) as [A B];
    rewrite to_uint_val in A, B;
    destruct (Pos.to_uint p); try congruence; try exact A; exact B.
Qed.

Lemma parseInt_integer (z : Z) : Js.parseInt (JNum (Num z)) = Num z.
Proof. exact (parseInt_NumberToString z). Qed.

Lemma parseInt_spelled (z : Z) :
  Js.parseInt (JStr (Js.NumberToString (Num z))) = Num z.
Proof. exact (parseInt_NumberToString z). Qed.

Lemma spells_inj (v : value) (z k : Z) : spells v z -> spells v k -> z = k.
Proof.
  intros [-> | ->] [E | E]; try discriminate.
  - now inversion E.
  - assert (E' : Js.NumberToString (Num z) = Js.NumberToString (Num k))
      by congruence.
    pose proof (parseInt_NumberToString z) as A.
    rewrite E', parseInt_NumberToString in A. now inversion A.
Qed.

Lemma spells_parseInt (v : value) (z : Z) : spells v z -> Js.parseInt v = Num z.
Proof. intros [-> | ->]; [apply parseInt_integer|apply parseInt_spelled]. Qed.

Lemma spells_defined (v : value) (z : Z) : spells v z -> v <> JUndef.
Proof. intros [-> | ->]; discriminate. Qed.

Lemma canonical_has_id (id : value) (k : Z) (r : record) :
  spells id k ->
  CD_Result.attr r "id" = JUndef
  \/ (exists z, safe_integer z = true /\ spells (CD_Result.attr r "id") z) ->
  record_has_id id r <-> spells (CD_Result.attr r "id") k.
Proof.
  intros K [U | (z & _ & Z)]; unfold record_has_id, numeric_id.
  - rewrite U. split.
    + intros (n & E & _). discriminate.
    + intros A. apply spells_defined in A. congruence.
  - rewrite (spells_parseInt _ _ Z), (spells_parseInt _ _ K). split.
    + intros (n & E1 & E2). inversion E1; inversion E2; subst. exact Z.
    + intros A. rewrite (spells_inj _ _ _ Z A). now exists k.
Qed.

(** C8, as the code has it: [get] compares what [parseInt] reads from the
    two identifiers, and returns the first record in store order for which
    the two readings are the same integer, [null] when there is none.  On a
    store whose records have for [id] an integer of the safe range, as a
    number or as the string of its decimal digits, or no [id], and for an
    argument that is such an integer [k], as a number or spelled, that is
    the first record whose [id] is [k] in either form, and [null] when no
    record has it: there the comparison is the equality of the numeric
    values. *)
Theorem get_returns_first_record (c : collection) (id : value) :
  match Query.get id c with
  | Some x =>
      exists before r after,
        x = CRec r /\ records c = (before ++ r :: after)%list
        /\ record_has_id id r
        /\ forall r', In r' before -> ~ record_has_id id r'
  | None => forall r, In r (records c) -> ~ record_has_id id r
  end
  /\ forall k,
       canonical_ids c ->
       safe_integer k = true ->
       spells id k ->
       match Query.get id c with
       | Some x =>
           exists before r after,
             x = CRec r /\ records c = (before ++ r :: after)%list
             /\ spells (CD_Result.attr r "id") k
             /\ forall r', In r' before -> ~ spells (CD_Result.attr r' "id") k
       | None =>
           forall r, In r (records c) -> ~ spells (CD_Result.attr r "id") k
       end.
Proof.
  pose proof (get_finds_first c id) as G.
  split; [exact G|].
  intros k C _ K.
  destruct (Query.get id c) as [x|].
  - destruct G as (before & r & after & -> & E & Hid & Hb).
    exists before, r, after.
    assert (Hr : In r (records c))
      by (rewrite E; apply in_or_app; right; left; reflexivity).
    split; [reflexivity|]. split; [exact E|]. split.
    + now apply (canonical_has_id id k r K (C r Hr)).
    + intros r' Hin A. apply (Hb r' Hin).
      assert (Hr' : In r' (records c))
        by (rewrite E; apply in_or_app; now left).
      now apply (canonical_has_id id k r' K (C r' Hr')).
  - intros r Hin A. apply (G r Hin).
    now apply (canonical_has_id id k r K (C r Hin)).
Qed.

Lemma get_returns_first_record_witness :
  canonical_ids
    {| records := [ [("id", JStr "6")]; [("a", JNull)]; [("id", JNum (Num 7))];
                    [("id", JStr "7")] ];
       fields := [("_init_ajax", NBool false); ("_init", NHandle Deferred)] |}
  /\ exists before after,
       [ [("id", JStr "6")]; [("a", JNull)]; [("id", JNum (Num 7))];
         [("id", JStr "7")] ]
       = (before ++ [("id", JNum (Num 7))] :: after)%list
       /\ forall r', In r' before -> ~ spells (CD_Result.attr r' "id") 7.
Proof.
  assert (C : canonical_ids
                {| records := [ [("id", JStr "6")]; [("a", JNull)];
                                [("id", JNum (Num 7))]; [("id", JStr "7")] ];
                   fields := [("_init_ajax", NBool false);
                              ("_init", NHandle Deferred)] |}).
  { intros r [<-|[<-|[<-|[<-|[]]]]];
      [right; exists 6%Z; split; [reflexivity|right; reflexivity]
      |left; reflexivity
      |right; exists 7%Z; split; [reflexivity|left; reflexivity]
      |right; exists 7%Z; split; [reflexivity|right; reflexivity]]. }
  split; [exact C|].
  destruct (get_returns_first_record
              {| records := [ [("id", JStr "6")]; [("a", JNull)];
                              [("id", JNum (Num 7))]; [("id", JStr "7")] ];
                 fields := [("_init_ajax", NBool false);
                            ("_init", NHandle Deferred)] |}
              (JStr "7")) as (_ & A).
  destruct (A 7%Z C eq_refl (or_intror eq_refl))
    as (before & r & after & E & R & _ & B).
  inversion E; subst r. exists before, after. split; assumption.
Defined.

(** [get(5)] finds the record whose [id] is the string [5abc], which is not
    a number, and [get(0)] does not find the record whose [id] is the empty
    string, which has the numeric value 0. *)
Lemma get_is_not_by_numeric_value :
  ~ get_by_numeric_value loose_store (JNum (Num 5))
  /\ ~ get_by_numeric_value loose_store (JNum (Num 0)).
Proof.
  split; intros A.
  - destruct A as (r & E & (n & A & _)). inversion E; subst r.
    vm_compute in A. discriminate.
  - apply (A [("id", JStr "")]); [simpl; auto|].
    exists 0%Z. split; reflexivity.
Qed.

(** X16: integer identifiers are compared exactly.  [parseInt] gives an
    integer of the safe range back unchanged, so on a record whose [id] is
    such an integer [z], the test of [get] succeeds for the number [k] of
    that range, and for the string that spells [k], exactly when [z = k]. *)
Theorem integer_ids_compare_exactly (r : record) (z k : Z) :
  safe_integer z = true ->
  safe_integer k = true ->
  CD_Result.attr r "id" = JNum (Num z) ->
  Js.parseInt (JNum (Num z)) = Num z
  /\ Query.same_id (JNum (Num k)) (CRec r) = Z.eqb z k
  /\ Query.same_id (JStr (Js.NumberToString (Num k))) (CRec r) = Z.eqb z k.
Proof.
  intros _ _ A. unfold Query.same_id. cbn [cval_attr]. rewrite A.
  rewrite !parseInt_integer, parseInt_spelled. auto.
Qed.

Lemma integer_ids_compare_exactly_witness :
  Query.same_id (JStr "42") (CRec [("id", JNum (Num 42)); ("a", JNull)]) = true.
Proof.
  destruct (integer_ids_compare_exactly
              [("id", JNum (Num 42)); ("a", JNull)] 42 42 eq_refl eq_refl eq_refl)
    as (_ & _ & A).
  exact A.
Defined.

(** ** [get] and [get_where] on integer identifiers *)

Lemma get_loop_filter (id : value) (props : list cval) :
  Query.get_loop id props = hd_error (List.filter (Query.same_id id) props).
Proof.
  induction props as [|x t IH]; simpl; [reflexivity|].
  destruct (Query.same_id id x); auto.
Qed.

Lemma hd_error_firstn_1 {A : Type} (l : list A) :
  hd_error (firstn 1 l) = hd_error l.
Proof. destruct l; reflexivity. Qed.

Section Get_and_where.
Context `{Host}.

Lemma id_clause_is_same_id (c : collection) (k : Z) (x : cval) :
  integer_ids c -> In x (own_values c) ->
  matches [("id", JNum (Num k))] x = Query.same_id (JNum (Num k)) x.
Proof.
  intros I Hin. destruct x as [r|n]; [|reflexivity].
  apply in_own_values_record in Hin.
  unfold matches; simpl. rewrite andb_true_r.
  unfold Query.clause_holds, Query.same_id; simpl.
  destruct (I r Hin) as [U | (z & _ & U)]; rewrite U; [reflexivity|].
  rewrite !parseInt_integer. reflexivity.
Qed.

(** X17: [get] and [get_where] agree on integer identifiers.  When every
    record has an integer of the safe range for [id], or none, and [k] is
    such an integer, [get_where({id: k}, 1)] returns the record that
    [get(k)] returns, with [undefined] where [get] gives [null]. *)
Theorem get_where_id_is_get (c : collection) (k : Z) :
  integer_ids c ->
  safe_integer k = true ->
  Query.get_where (Obj [("id", JNum (Num k))]) (JNum (Num 1)) c
  = Query.Item (Query.get (JNum (Num k)) c).
Proof.
  intros I _. unfold Query.get_where, Query.get. simpl negb. cbv iota.
  change (JNum (Num 1)) with (JNum (Num (Z.of_nat 1))).
  rewrite obj_props_limited; [|intros x []|simpl; lia].
  rewrite strict_eq_length. simpl Nat.eqb. cbv iota.
  change ([] ++ firstn (1 - List.length (@nil cval))
                  (List.filter (matches [("id", JNum (Num k))]) (own_values c)))%list
    with (firstn 1 (List.filter (matches [("id", JNum (Num k))]) (own_values c))).
  rewrite hd_error_firstn_1, get_loop_filter.
  f_equal. f_equal. apply filter_ext_in. intros x Hin.
  now apply (id_clause_is_same_id c).
Qed.

(** ** Limits that are not a count to reach *)




End Get_and_where.

Lemma get_where_id_is_get_witness :
  Query.get_where (Obj [("id", JNum (Num 7))]) (JNum (Num 1))
    {| records := [ [("id", JNum (Num 6))]; [("a", JNull)]; [("id", JNum (Num 7))] ];
       fields := constructed_fields |}
  = Query.Item (Some (CRec [("id", JNum (Num 7))])).
Proof.
  rewrite (get_where_id_is_get
             {| records := [ [("id", JNum (Num 6))]; [("a", JNull)];
                             [("id", JNum (Num 7))] ];
                fields := constructed_fields |} 7).
  - reflexivity.
  - intros r [<-|[<-|[<-|[]]]];
      [right; exists 6%Z; split|left|right; exists 7%Z; split]; reflexivity.
  - reflexivity.
Defined.

(** ** [like] *)

Lemma count_all {A : Type} (f : A -> bool) (l : list A) :
  Nat.eqb (List.length (List.filter f l)) (List.length l) = forallb f l.
Proof.
  induction l as [|a t IH]; simpl; [reflexivity|].
  destruct (f a); simpl; [exact IH|].
  pose proof (filter_length_le f t). apply Nat.eqb_neq. lia.
Qed.

Section Like_facts.
Context `{RegExpHost}.

Lemma like_clause_compiled (o : object) (x : cval) (k : string) :
  compiles o k -> like_clause o x k = inr (like_holds o x k).
Proof.
  unfold compiles, like_holds, like_clause.
  destruct (new_RegExp (pattern_source (Object.read o k))); [reflexivity|congruence].
Qed.


(** The counter ends at the number of clauses that hold. *)
Lemma like_clauses_count (o : object) (x : cval) (ks : list string) (m : nat) :
  (forall k, In k ks -> compiles o k) ->
  like_clauses o x ks m
  = inr (m + List.length (List.filter (like_holds o x) ks))%nat.
Proof.
  revert m. induction ks as [|k t IH]; intros m C; cbn [like_clauses List.filter].
  - simpl. now rewrite Nat.add_0_r.
  - rewrite like_clause_compiled by (apply C; simpl; auto).
    destruct (like_holds o x k); rewrite IH by (intros; apply C; simpl; auto);
      cbn [List.length]; f_equal; lia.
Qed.


Lemma like_loop_filter (o : object) (props matched : list cval) :
  (forall k, In k (Object.keys o) -> compiles o k) ->
  like_loop (Obj o) props matched
  = inr (matched ++ List.filter (resembles o) props)%list.
Proof.
  intros C. revert matched.
  induction props as [|x rest IH]; intros matched; cbn [like_loop List.filter].
  - now rewrite app_nil_r.
  - rewrite (like_clauses_count o x (Object.keys o) 0 C). cbn [Nat.add].
    rewrite count_all. fold (resembles o x).
    destruct (resembles o x); rewrite IH; [now rewrite <- app_assoc|reflexivity].
Qed.

Lemma filter_resembles_own (o : object) (c : collection) :
  List.filter (resembles o) (own_values c)
  = (map CRec (List.filter (fun r => resembles o (CRec r)) (records c))
     ++ List.filter (resembles o)
          (map (fun kv => CNamed (snd kv)) (fields c)))%list.
Proof.
  unfold own_values. rewrite filter_app. f_equal.
  induction (records c) as [|r t IH]; simpl; [reflexivity|].
  destruct (resembles o (CRec r)); simpl; now rewrite IH.
Qed.

(** X19: what [like] returns.  A filter that is not of type "object" gives
    the empty array.  When the source of every clause compiles and the
    clauses name data attributes, [like] returns first the records of the
    store, in store order, of which every clause holds (the attribute of
    that name is neither [undefined] nor [null] and its string has an
    occurrence of the expression), then whatever other own properties of
    the instance pass the same test, none of them a record. *)
Theorem like_returns_the_resembling (c : collection) (o : object) :
  (forall clause, In clause (Object.keys o) -> compiles o clause) ->
  data_names o = true ->
  (exists others,
     (forall x, In x others -> forall r, x <> CRec r)
     /\ like (Obj o) c
        = inr (map CRec
                 (List.filter (fun r => resembles o (CRec r)) (records c))
               ++ others)%list)
  /\ (forall r,
        resembles o (CRec r) = true <->
        forall clause, In clause (Object.keys o) ->
          exists re,
            new_RegExp (pattern_source (Object.read o clause)) = Some re
            /\ CD_Result.attr r clause <> JUndef
            /\ CD_Result.attr r clause <> JNull
            /\ has_match re (Js.ToString (CD_Result.attr r clause)) = true)
  /\ (forall v, Js.typeof v <> "object" -> like (Prim v) c = inr []).
Proof.
  intros C _.
  assert (L : like (Obj o) c = inr (List.filter (resembles o) (own_values c)))
    by (unfold like; simpl negb; cbv iota; exact (like_loop_filter o _ [] C)).
  split; [|split].
  - exists (List.filter (resembles o)
              (map (fun kv => CNamed (snd kv)) (fields c))).
    split.
    + intros x Hin r E. apply filter_In in Hin. destruct Hin as [Hin _].
      apply in_map_iff in Hin. destruct Hin as (kv & K & _). congruence.
    + now rewrite L, filter_resembles_own.
  - intros r. unfold resembles. rewrite forallb_forall.
    split; intros A clause Hin; specialize (A clause Hin).
    + unfold like_holds, like_clause in A. cbn [cval_attr] in A.
      destruct (new_RegExp (pattern_source (Object.read o clause))) as [re|];
        [|discriminate].
      apply andb_true_iff in A. destruct A as [A M].
      apply andb_true_iff in A. destruct A as [D N].
      exists re. split; [reflexivity|]. split; [now apply defined_spec|].
      split; [|exact M].
      intros E. rewrite E in N. discriminate.
    + destruct A as (re & R & D & N & M).
      unfold like_holds, like_clause. cbn [cval_attr]. rewrite R, M.
      apply defined_spec in D. rewrite D.
      destruct (CD_Result.attr r clause); try reflexivity. congruence.
  - intros v T. unfold like.
    replace (String.eqb (Js.typeof_arg (Prim v)) "object") with false;
      [reflexivity|].
    symmetry. now apply String.eqb_neq.
Qed.


End Like_facts.

Lemma like_returns_the_resembling_witness :
  exists others,
    like (Obj [("id", JStr "5")]) sample_store
    = inr (CRec [("id", JStr "5"); ("a", JNum (Num 1))] :: others).
Proof.
  destruct (like_returns_the_resembling sample_store [("id", JStr "5")])
    as ((others & _ & A) & _).
  - intros clause [<-|[]]. discriminate.
  - reflexivity.
  - exists others. exact A.
Defined.


(** ** An emptied instance *)

Section Emptied.
Context `{Host} `{RegExpHost}.

(** X21: an emptied instance answers nothing.  After [empty()] the
    instance has no own property left, so [get] returns [null], [get_where]
    returns no element and [like] returns the empty array for every
    argument, [null] and filters that do not compile included: nothing is
    thrown, since no own property is visited. *)
Theorem emptied_instance_answers_nothing (w : world) (id limit : value)
  (where_ like_ : jsarg) :
  own_values (self (step Call_empty w)) = []
  /\ Query.get id (self (step Call_empty w)) = None
  /\ (forall x,
        ~ returned (Query.get_where where_ limit (self (step Call_empty w))) x)
  /\ like like_ (self (step Call_empty w)) = inr [].
Proof.
  split; [reflexivity|]. split; [reflexivity|]. split.
  - intros x. unfold Query.get_where.
    destruct (negb (String.eqb (Js.typeof_arg where_) "object")); [intros []|].
    change (own_values (self (step Call_empty w))) with (@nil cval).
    cbn [Query.obj_props].
    destruct (Js.strict_eq limit (JNum (Num 1))); simpl; [discriminate|tauto].
  - unfold like.
    destruct (negb (String.eqb (Js.typeof_arg like_) "object")); reflexivity.
Qed.

End Emptied.

(** ** [param] and [filter] *)

Section Mutator_facts.
Context `{Host}.




End Mutator_facts.


(** ** Worked pagination *)

Lemma next_url_next_agree_witness :
  Object.read
    (params_of (world_after (CD_Model.next JUndef
       (users_world [("offset", JNum (Num 20)); ("limit", JNum (Num 10))] R_false))))
    "offset" = JNum (Num 30).
Proof.
  destruct (next_url_next_agree
              (users_world [("offset", JNum (Num 20)); ("limit", JNum (Num 10))] R_false)
              JUndef 20 10 10 eq_refl eq_refl (or_introl (conj eq_refl eq_refl)))
    as (A & _); [lia|exact A].
Defined.

Lemma page_url_page_agree_witness :
  Object.read
    (params_of (world_after (CD_Model.page (JNum (Num 3)) JUndef
       (users_world [("limit", JNum (Num 10))] R_false))))
    "offset" = JNum (Num 20).
Proof.
  destruct (page_url_page_agree
              (users_world [("limit", JNum (Num 10))] R_false) 3 10 eq_refl)
    as (A & _); [lia|exact A].
Defined.
